(** * VolumiWLED: the render and synchronisation core of [volumiwled.py]

    A shallow embedding of [WLEDClient], [EffectManager] and the body of
    [VolumiWLED.run], with the properties of the specification proved over it.

    Modelling conventions.
    - Python [int] is [Z]; [//] and [%] are [Z.div] and [Z.modulo] (both floor
      towards minus infinity, as in Python), and [%] by zero raises
      [ZeroDivisionError]; [time.sleep] of a negative length raises
      [ValueError].  An exception leaves [run], which catches only
      [KeyboardInterrupt].
    - Python [float] is an exact rational [Q]: rounding, infinities and NaN
      are outside the model.  [int(x)] truncates towards zero.  Over this
      idealisation only facts that survive rounding are stated (ranges,
      monotonicity, which request is sent); lines 132-133 are given a second
      time in binary64 ([leds_to_light_binary64]), where the exact value of
      the lit count is at stake.
    - [math.sin] is library code: it is a parameter [math_sin] of the model,
      and the one fact used about it is its range.  [math.pi] is the rational
      value of the double constant.
    - The HTTP requests, the sleeps and the log records are events appended to
      a trace; whether a POST succeeds is decided by the environment
      ([wled_ok]).  The two mutable attributes [rotation_offset] and
      [previous_status] are fields of the threaded state.
    - Entering an [apply_*] method leaves an [Invoke] event, so that a property
      of the form "the method is not called" can be read off the trace. *)

From Stdlib Require Import ZArith QArith Qround Qminmax List String Bool Lia.
From Stdlib Require Floats.
Import ListNotations.
Local Open Scope Z_scope.

(** ** Python primitives *)

Inductive exn : Type :=
| ZeroDivisionError
| ValueError
| OverflowError.

(** [int(x)] on a float: truncation towards zero. *)
Definition py_int (x : Q) : Z := Z.quot (Qnum x) (Zpos (Qden x)).

(** [min(a, b)]: the first argument unless the second is strictly smaller. *)
Definition py_min (a b : Q) : Q := if Qle_bool a b then a else b.

(** [max(a, b)] on integers. *)
Definition py_max (a b : Z) : Z := if a <? b then b else a.

(** [range(n)]: empty when [n <= 0]. *)
Definition py_range (n : Z) : list Z := map Z.of_nat (seq 0 (Z.to_nat n)).

(** [d.get(key, default)] on an optional field. *)
Definition get {A : Type} (field : option A) (default : A) : A :=
  match field with
  | Some v => v
  | None => default
  end.

(** [a > 0] on floats. *)
Definition Qpositive (a : Q) : bool := negb (Qle_bool a 0).

(** ** Data *)

Definition rgb : Type := (Z * Z * Z)%type.

(** The keys of [config.yaml] the core reads. *)
Record config : Type := Config {
  led_count : Z;
  brightness : Z;
  progress_bar_enabled : bool;
  progress_bar_color : rgb;
  vinyl_rotation_enabled : bool;
  vinyl_rotation_color : rgb;
  vinyl_rotation_speed : Q;
  update_interval : Q
}.

(** The fields of the JSON object returned by [/api/v1/getState] that the loop
    looks at; [None] is an absent key.  [seek] and [duration] are JSON
    numbers: an answer whose [seek] is [null], a string, or an integer past
    the range of doubles makes the division of lines 240 and 251 raise, and
    is outside this type. *)
Record volumio_state : Type := VolumioState {
  st_status : option string;
  st_seek : option Q;
  st_duration : option Q
}.

(** The JSON bodies posted to [/json/state]. *)
Inductive payload : Type :=
| StatePayload (on : bool) (bri : option Z)
| SegmentPayload (id start : Z) (stop : option Z) (col : rgb)
| PixelPayload (led_data : list Z).

Inductive level : Type := INFO | WARNING | ERROR.

Inductive call : Type :=
| ProgressBarCall (progress duration : Q)
| VinylRotationCall (is_playing : bool).

Inductive event : Type :=
| Post (p : payload) (ok : bool)
| Sleep (seconds : Q)
| Log (lvl : level) (msg : string)
| Invoke (c : call).

Record world : Type := World {
  rotation_offset : Z;
  previous_status : option string;
  trace : list event
}.

(** The requests sent to the lighting controller, in order. *)
Fixpoint posts (t : list event) : list payload :=
  match t with
  | [] => []
  | Post p _ :: t' => p :: posts t'
  | _ :: t' => posts t'
  end.

(** The [apply_*] calls made, in order. *)
Fixpoint calls (t : list event) : list call :=
  match t with
  | [] => []
  | Invoke c :: t' => c :: calls t'
  | _ :: t' => calls t'
  end.

(** ** Frames *)

(** A frame as the specification has it: one [(ledIndex, RGB)] pair per LED. *)
Definition frame : Type := list (Z * rgb).

(** The flat [i] array of a WLED segment: [index, r, g, b] repeated. *)
Definition encode_frame (f : frame) : list Z :=
  flat_map (fun '(i, (r, g, b)) => [i; r; g; b]) f.

(** Reading the flat array back; [None] when it is not a whole number of
    entries. *)
Fixpoint frame_of (led_data : list Z) : option frame :=
  match led_data with
  | [] => Some []
  | i :: r :: g :: b :: rest =>
      match frame_of rest with
      | Some f => Some ((i, (r, g, b)) :: f)
      | None => None
      end
  | _ => None
  end.

(** ** The state and exception monad *)

Inductive result (A : Type) : Type :=
| Returned (a : A) (w : world)
| Raised (e : exn) (w : world).
Arguments Returned {A} a w.
Arguments Raised {A} e w.

Definition M (A : Type) : Type := world -> result A.

Definition ret {A : Type} (a : A) : M A := fun w => Returned a w.

Definition bind {A B : Type} (c : M A) (k : A -> M B) : M B :=
  fun w =>
    match c w with
    | Returned a w' => k a w'
    | Raised e w' => Raised e w'
    end.

Declare Scope py_scope.
Delimit Scope py_scope with py.
Notation "x <- c ;; k" := (bind c (fun x => k))
  (at level 61, c at next level, right associativity) : py_scope.
Notation "c ;; k" := (bind c (fun _ => k))
  (at level 61, right associativity) : py_scope.
Local Open Scope py_scope.

Definition raise {A : Type} (e : exn) : M A := fun w => Raised e w.

Definition emit (e : event) : M unit :=
  fun w => Returned tt (World (rotation_offset w) (previous_status w) (trace w ++ [e])).

Definition read {A : Type} (field : world -> A) : M A :=
  fun w => Returned (field w) w.

Definition set_rotation_offset (v : Z) : M unit :=
  fun w => Returned tt (World v (previous_status w) (trace w)).

Definition set_previous_status (v : option string) : M unit :=
  fun w => Returned tt (World (rotation_offset w) v (trace w)).

(** The state a computation ends in, returned or raised. *)
Definition final {A : Type} (r : result A) : world :=
  match r with
  | Returned _ w => w
  | Raised _ w => w
  end.

(** [a % b] on integers. *)
Definition py_mod (a b : Z) : M Z :=
  if b =? 0 then raise ZeroDivisionError else ret (a mod b).

(** [time.sleep(seconds)]: a negative length raises. *)
Definition sleep (seconds : Q) : M unit :=
  if Qle_bool 0 seconds then emit (Sleep seconds) else raise ValueError.

Definition log (lvl : level) (msg : string) : M unit := emit (Log lvl msg).

(** [math.pi], the double constant as a rational. *)
Definition math_pi : Q := 884279719003555 # 281474976710656.

(** [str(x)] of [None] or of a string, as an f-string prints it. *)
Definition show_status (s : option string) : string :=
  match s with
  | Some v => v
  | None => "None"
  end.

(** [status != self.previous_status]. *)
Definition status_changed (status : string) (previous : option string) : bool :=
  match previous with
  | Some p => negb (String.eqb status p)
  | None => true
  end.

(** ** [EffectManager.apply_progress_bar], the pure part (lines 132-144) *)

(** [progress_ratio = min(progress / duration, 1.0)]; evaluated only after the
    guard [duration <= 0] has been passed. *)
Definition progress_ratio (progress duration : Q) : Q :=
  py_min (progress / duration) 1.

(** [leds_to_light = int(self.led_count * progress_ratio)]. *)
Definition leds_to_light (count : Z) (progress duration : Q) : Z :=
  py_int (inject_Z count * progress_ratio progress duration).

(** The loop building [led_data]: each iteration extends the list. *)
Definition progress_led_data (count lit : Z) (color : rgb) : list Z :=
  fold_left
    (fun led_data i =>
       if i <? lit
       then let '(r, g, b) := color in led_data ++ [i; r; g; b]
       else led_data ++ [i; 0; 0; 0])
    (py_range count) [].

(** ** Lines 132-133 in binary64 *)






Section Program.

(** Whether the POST issued after [n] events reaches the controller. *)
Variable wled_ok : nat -> bool.

(** [math.sin]. *)
Variable math_sin : Q -> Q.

(** ** [VolumioClient.get_state]

    [response] is what the environment answers: [None] stands for a
    [RequestException], which is logged and turned into [None]. *)
Definition get_state (response : option volumio_state) : M (option volumio_state) :=
  match response with
  | Some state => ret (Some state)
  | None => log ERROR "Error getting Volumio state" ;; ret None
  end.

(** ** [WLEDClient] *)

(** [requests.post(...)] followed by [raise_for_status()], inside the
    [try]: [True] on success, otherwise the error is logged and the result is
    [False]. *)
Definition post (p : payload) (error : string) : M bool :=
  t <- read trace ;;
  let ok := wled_ok (List.length t) in
  emit (Post p ok) ;;
  if ok then ret true else log ERROR error ;; ret false.

Definition set_state (on : bool) (bri : option Z) : M bool :=
  post (StatePayload on bri) "Error setting WLED state".

Definition set_segment (segment_id start : Z) (stop : option Z) (color : rgb) : M bool :=
  post (SegmentPayload segment_id start stop color) "Error setting WLED segment".

Definition clear_leds (count : Z) : M bool :=
  set_segment 0 0 (Some count) (0, 0, 0).

Definition set_individual_leds (led_data : list Z) : M bool :=
  post (PixelPayload led_data) "Error setting individual LEDs".

(** ** [EffectManager] *)

Definition apply_progress_bar (cfg : config) (progress duration : Q) : M bool :=
  emit (Invoke (ProgressBarCall progress duration)) ;;
  if Qle_bool duration 0 then ret false
  else
    let lit := leds_to_light (led_count cfg) progress duration in
    let color := progress_bar_color cfg in
    let led_data := progress_led_data (led_count cfg) lit color in
    set_individual_leds led_data.


(** The body of the rotation loop for LED [i] (lines 173-182); [led_count] is
    not zero here, the [%] of line 164 has raised otherwise. *)
Definition vinyl_intensity (count offset i : Z) : Q :=
  let pos := (i - offset) mod count in
  let angle := ((inject_Z pos / inject_Z count) * 2 * math_pi * 4)%Q in
  ((math_sin angle + 1) / 2)%Q.

Definition vinyl_pixel (count offset : Z) (color : rgb) (i : Z) : list Z :=
  let intensity := vinyl_intensity count offset i in
  let '(c0, c1, c2) := color in
  let r := py_int (inject_Z c0 * intensity) in
  let g := py_int (inject_Z c1 * intensity) in
  let b := py_int (inject_Z c2 * intensity) in
  [i; r; g; b].

Definition vinyl_led_data (count offset : Z) (color : rgb) : list Z :=
  fold_left
    (fun led_data i => led_data ++ vinyl_pixel count offset color i)
    (py_range count) [].

Definition apply_vinyl_rotation (cfg : config) (is_playing : bool) : M bool :=
  emit (Invoke (VinylRotationCall is_playing)) ;;
  if negb is_playing then clear_leds (led_count cfg)
  else
    let color := vinyl_rotation_color cfg in
    let speed := vinyl_rotation_speed cfg in
    old <- read rotation_offset ;;
    new <- py_mod (old + 1) (led_count cfg) ;;
    set_rotation_offset new ;;
    let pattern_width := py_max 1 (led_count cfg / 8) in
    let led_data := vinyl_led_data (led_count cfg) new color in
    sleep (speed / 1000) ;;
    set_individual_leds led_data.

(** ** [VolumiWLED.run] *)

(** One iteration of the [while True] loop (lines 223-264). *)
Definition iteration (cfg : config) (response : option volumio_state) : M unit :=
  state <- get_state response ;;
  match state with
  | None =>
      log WARNING "Could not get Volumio state, retrying..." ;;
      sleep (update_interval cfg)
  | Some state =>
      let status := get (st_status state) "stop"%string in
      previous <- read previous_status ;;
      (if status_changed status previous
       then
         log INFO ("Player status changed: " ++ show_status previous ++ " -> " ++ status)%string ;;
         set_previous_status (Some status)
       else ret tt) ;;
      (if String.eqb status "play" then
         let seek := (get (st_seek state) 0 / 1000)%Q in
         let duration := get (st_duration state) 0%Q in
         if progress_bar_enabled cfg && Qpositive duration then
           apply_progress_bar cfg seek duration ;; ret tt
         else if vinyl_rotation_enabled cfg then
           apply_vinyl_rotation cfg true ;; ret tt
         else ret tt
       else if String.eqb status "pause" then
         let seek := (get (st_seek state) 0 / 1000)%Q in
         let duration := get (st_duration state) 0%Q in
         if progress_bar_enabled cfg && Qpositive duration then
           apply_progress_bar cfg seek duration ;; ret tt
         else
           set_state true (Some (brightness cfg / 4)) ;; ret tt
       else if String.eqb status "stop" then
         clear_leds (led_count cfg) ;; ret tt
       else ret tt) ;;
      sleep (update_interval cfg)
  end.

(** The loop over the answers of the player, one per tick. *)
Fixpoint loop (cfg : config) (responses : list (option volumio_state)) : M unit :=
  match responses with
  | [] => ret tt
  | response :: rest => iteration cfg response ;; loop cfg rest
  end.

(** [run]: power on, loop, and on [KeyboardInterrupt] (here: after the last
    of [responses]) clear and power off.  Any other exception leaves [run]. *)
Definition run (cfg : config) (responses : list (option volumio_state)) : M unit :=
  log INFO "Starting VolumiWLED..." ;;
  set_state true (Some (brightness cfg)) ;;
  loop cfg responses ;;
  log INFO "Shutting down VolumiWLED..." ;;
  clear_leds (led_count cfg) ;;
  set_state false None ;;
  ret tt.

End Program.

(** The events of one POST: the request, and the error record when it fails. *)
Definition posted (p : payload) (ok : bool) (error : string) : list event :=
  Post p ok :: (if ok then [] else [Log ERROR error]).

(** ** The specification's formulas *)

(** [clamp(x, lo, hi)]. *)
Definition clamp (x lo hi : Q) : Q := Qmax lo (Qmin x hi).


(** LEDs [[0, lit)] get [color], LEDs [[lit, ledCount)] get [(0,0,0)]. *)
Definition spec_progress_frame (ledCount lit : Z) (color : rgb) : frame :=
  map (fun i => (i, if i <? lit then color else (0, 0, 0))) (py_range ledCount).

(** A channel value the controller accepts. *)
Definition channel (c : Z) : Prop := 0 <= c <= 255.

(** [color * intensity] per channel, truncated to integer. *)
Definition spec_scaled (color : rgb) (intensity : Q) : rgb :=
  let '(r, g, b) := color in
  (py_int (inject_Z r * intensity),
   py_int (inject_Z g * intensity),
   py_int (inject_Z b * intensity)).

(** The rotation frame: LED [i] gets [color] scaled by [intensity i]. *)
Definition spec_rotation_frame (ledCount : Z) (color : rgb) (intensity : Z -> Q) : frame :=
  map (fun i => (i, spec_scaled color (intensity i))) (py_range ledCount).

(** Exactly [ledCount] entries, the [k]-th one being that of LED [k]: one entry
    per index of [[0, ledCount)], unique, dense and in order. *)
Definition complete_frame (ledCount : Z) (led_data : list Z) : Prop :=
  exists f : frame,
    frame_of led_data = Some f /\
    List.length f = Z.to_nat ledCount /\
    forall k : nat, (k < Z.to_nat ledCount)%nat -> nth k (map fst f) (-1) = Z.of_nat k.

(** A per-LED request carries a complete frame. *)
Definition whole_frame (ledCount : Z) (e : event) : Prop :=
  match e with
  | Post (PixelPayload led_data) _ => complete_frame ledCount led_data
  | _ => True
  end.

(** A call of the progress renderer satisfies its precondition. *)
Definition guarded_call (e : event) : Prop :=
  match e with
  | Invoke (ProgressBarCall _ duration) => (0 < duration)%Q
  | _ => True
  end.

(** [emits P c]: from any state, [c] only appends events to the trace, and
    every event it appends satisfies [P], whether it returns or raises. *)
Definition emits {A : Type} (P : event -> Prop) (c : M A) : Prop :=
  forall w : world,
    exists new : list event,
      trace (final (c w)) = trace w ++ new /\ Forall P new.

(** All three channels of a colour are channel values. *)
Definition rgb_ok (color : rgb) : Prop :=
  let '(r, g, b) := color in channel r /\ channel g /\ channel b.

(** ** Lists, ranges and frames *)

Lemma fold_left_extend {A : Type} (f : A -> list Z) (l : list A) (acc : list Z) :
  fold_left (fun led_data i => led_data ++ f i) l acc = acc ++ flat_map f l.
Proof.
  revert acc; induction l as [|a l IH]; intros acc; simpl.
  - now rewrite app_nil_r.
  - now rewrite IH, app_assoc.
Qed.

Lemma fold_left_pointwise {A B : Type} (f g : A -> B -> A) (l : list B) (a : A) :
  (forall x y, f x y = g x y) -> fold_left f l a = fold_left g l a.
Proof.
  intros H. revert a; induction l as [|b l IH]; intros a; simpl.
  - reflexivity.
  - now rewrite H, IH.
Qed.

Lemma frame_of_encode (f : frame) : frame_of (encode_frame f) = Some f.
Proof.
  induction f as [|[i [[r g] b]] f IH]; [reflexivity|].
  change (encode_frame ((i, (r, g, b)) :: f)) with (i :: r :: g :: b :: encode_frame f).
  cbn [frame_of]. now rewrite IH.
Qed.

Lemma encode_frame_map {A : Type} (g : A -> Z * rgb) (l : list A) :
  encode_frame (map g l) =
  flat_map (fun a => let '(i, (r, g, b)) := g a in [i; r; g; b]) l.
Proof.
  unfold encode_frame. induction l as [|a l IH]; simpl; [reflexivity|].
  rewrite IH. destruct (g a) as [i [[r g'] b]]. reflexivity.
Qed.

Lemma py_range_length (n : Z) : List.length (py_range n) = Z.to_nat n.
Proof. unfold py_range. now rewrite length_map, length_seq. Qed.

Lemma py_range_In (n i : Z) : In i (py_range n) <-> 0 <= i < n.
Proof.
  unfold py_range. rewrite in_map_iff. split.
  - intros [k [<- Hk]]. apply in_seq in Hk. lia.
  - intros H. exists (Z.to_nat i). split; [lia|]. apply in_seq. lia.
Qed.

Lemma py_range_NoDup (n : Z) : NoDup (py_range n).
Proof.
  unfold py_range. apply NoDup_map_NoDup_ForallPairs.
  - intros a b _ _. lia.
  - apply seq_NoDup.
Qed.

Lemma py_range_nth (n : Z) (k : nat) :
  (k < Z.to_nat n)%nat -> nth k (py_range n) 0 = Z.of_nat k.
Proof.
  intros H. unfold py_range.
  change 0 with (Z.of_nat 0). rewrite map_nth, seq_nth; [reflexivity|exact H].
Qed.

Lemma posts_app (t1 t2 : list event) : posts (t1 ++ t2) = posts t1 ++ posts t2.
Proof.
  induction t1 as [|e t1 IH]; simpl; [reflexivity|].
  destruct e; simpl; now rewrite IH.
Qed.

Lemma calls_app (t1 t2 : list event) : calls (t1 ++ t2) = calls t1 ++ calls t2.
Proof.
  induction t1 as [|e t1 IH]; simpl; [reflexivity|].
  destruct e; simpl; now rewrite IH.
Qed.

Lemma progress_led_data_frame (count lit : Z) (color : rgb) :
  progress_led_data count lit color =
  encode_frame (spec_progress_frame count lit color).
Proof.
  unfold progress_led_data, spec_progress_frame.
  rewrite encode_frame_map.
  rewrite <- (app_nil_l (flat_map _ _)), <- fold_left_extend.
  apply fold_left_pointwise. intros acc i.
  destruct color as [[r g] b]. now destruct (i <? lit).
Qed.

(** ** Arithmetic of the progress bar *)

Lemma py_int_floor (x : Q) : (0 <= x)%Q -> py_int x = Qfloor x.
Proof.
  destruct x as [n d]. unfold Qle, py_int, Qfloor; simpl. intros H.
  apply Z.quot_div_nonneg; lia.
Qed.

Lemma py_min_le_compat (a b : Q) : (a <= b)%Q -> (py_min a 1 <= py_min b 1)%Q.
Proof.
  intros H. unfold py_min.
  destruct (Qle_bool a 1) eqn:Ha, (Qle_bool b 1) eqn:Hb.
  - exact H.
  - now apply Qle_bool_iff.
  - apply Qle_lteq. left. apply Qlt_le_trans with (y := a); [|exact H].
    apply Qnot_le_lt. intros Hc. apply Qle_bool_iff in Hc. congruence.
  - apply Qle_refl.
Qed.

Lemma ratio_nonneg (progress duration : Q) :
  (0 <= progress)%Q -> (0 < duration)%Q -> (0 <= progress / duration)%Q.
Proof.
  intros Hp Hd. unfold Qdiv. apply Qmult_le_0_compat; [exact Hp|].
  apply Qinv_le_0_compat. now apply Qlt_le_weak.
Qed.

Lemma progress_ratio_nonneg (progress duration : Q) :
  (0 <= progress)%Q -> (0 < duration)%Q -> (0 <= progress_ratio progress duration)%Q.
Proof.
  intros Hp Hd. unfold progress_ratio, py_min.
  destruct (Qle_bool _ 1); [now apply ratio_nonneg | discriminate].
Qed.

Lemma inject_Z_nonneg (n : Z) : 0 <= n -> (0 <= inject_Z n)%Q.
Proof. intros H. unfold Qle; simpl. lia. Qed.

Lemma leds_to_light_floor (count : Z) (progress duration : Q) :
  0 <= count -> (0 <= progress)%Q -> (0 < duration)%Q ->
  leds_to_light count progress duration =
  Qfloor (inject_Z count * progress_ratio progress duration).
Proof.
  intros Hc Hp Hd. unfold leds_to_light. apply py_int_floor.
  apply Qmult_le_0_compat; [now apply inject_Z_nonneg|].
  now apply progress_ratio_nonneg.
Qed.


(** ** Arithmetic of the rotation *)

Lemma scaled_channel (c : Z) (intensity : Q) :
  channel c -> (0 <= intensity <= 1)%Q -> channel (py_int (inject_Z c * intensity)).
Proof.
  unfold channel. intros Hc [H0 H1].
  assert (Hn : (0 <= inject_Z c * intensity)%Q).
  { apply Qmult_le_0_compat; [apply inject_Z_nonneg; lia | exact H0]. }
  rewrite py_int_floor by exact Hn. split.
  - rewrite <- (Qfloor_Z 0). now apply Qfloor_resp_le.
  - apply Z.le_trans with (m := c); [|lia].
    rewrite <- (Qfloor_Z c) at 2. apply Qfloor_resp_le.
    rewrite <- (Qmult_1_r (inject_Z c)) at 2.
    rewrite (Qmult_comm (inject_Z c) intensity), (Qmult_comm (inject_Z c) 1).
    apply Qmult_le_compat_r; [exact H1 | apply inject_Z_nonneg; lia].
Qed.

(** ** Sample inputs *)

(** A strip of ten LEDs with both effects enabled. *)
Definition demo_config : config :=
  Config 10 128 true (10, 20, 30) true (255, 0, 0) 50 (1 # 2).


(** The same strip with no effect enabled. *)
Definition idle_config : config :=
  Config 10 128 false (10, 20, 30) false (255, 0, 0) 50 (1 # 2).

(** The state [run] starts from. *)
Definition initial_world : world := World 0 None [].

(** A controller that answers every request. *)
Definition wled_up : nat -> bool := fun _ => true.

(** A stand-in for [math.sin] with the same range: the identity cut off at
    [-1] and [1]. *)
Definition sin_cut (x : Q) : Q := clamp x (-1) 1.

(** A track of 200 s, 50 s in. *)
Definition playing_state : volumio_state :=
  VolumioState (Some "play"%string) (Some 50000%Q) (Some 200%Q).

(** The same track with its duration unknown. *)
Definition playing_unknown : volumio_state :=
  VolumioState (Some "play"%string) (Some 50000%Q) (Some 0%Q).

Definition paused_unknown : volumio_state :=
  VolumioState (Some "pause"%string) (Some 50000%Q) None.

(** An answer without a [status] key. *)
Definition statusless_state : volumio_state :=
  VolumioState None (Some 50000%Q) (Some 200%Q).

(** A playing answer on which the loop falls through to the rotation: the
    progress bar is disabled or the duration is not positive. *)
Definition rotating (cfg : config) (response : option volumio_state) : Prop :=
  exists st : volumio_state,
    response = Some st /\
    st_status st = Some "play"%string /\
    (progress_bar_enabled cfg = false \/ (get (st_duration st) 0 <= 0)%Q).

(** The messages logged at level [INFO], in order. *)
Fixpoint infos (t : list event) : list string :=
  match t with
  | [] => []
  | Log INFO msg :: t' => msg :: infos t'
  | _ :: t' => infos t'
  end.

(** Two runs of a computation, from [w1] and from [w2], that end the same way,
    in states with the same offset and previous status, having sent the same
    requests. *)
Definition same_requests {A : Type} (r1 r2 : result A) (w1 w2 : world) : Prop :=
  (exists new : list payload,
     posts (trace (final r1)) = posts (trace w1) ++ new /\
     posts (trace (final r2)) = posts (trace w2) ++ new) /\
  rotation_offset (final r1) = rotation_offset (final r2) /\
  previous_status (final r1) = previous_status (final r2) /\
  match r1, r2 with
  | Returned _ _, Returned _ _ => True
  | Raised e1 _, Raised e2 _ => e1 = e2
  | _, _ => False
  end.

(** The rotation only, on a strip of four LEDs. *)
Definition vinyl_config : config :=
  Config 4 128 false (10, 20, 30) true (255, 0, 0) 50 (1 # 2).

(** A strip of no LED at all, rotation enabled. *)
Definition empty_config : config :=
  Config 0 128 false (10, 20, 30) true (255, 0, 0) 50 (1 # 2).

(** A stopped player that still reports a track. *)
Definition stopped_state : volumio_state :=
  VolumioState (Some "stop"%string) (Some 50000%Q) (Some 200%Q).

(** A status the loop does not know. *)
Definition buffering_state : volumio_state :=
  VolumioState (Some "buffering"%string) (Some 50000%Q) (Some 200%Q).

(** The same track, paused. *)
Definition paused_state : volumio_state :=
  VolumioState (Some "pause"%string) (Some 50000%Q) (Some 200%Q).

(** A controller that answers no request. *)
Definition wled_down : nat -> bool := fun _ => false.

(** ** What a computation appends to the trace *)

Section Emits.

Context {A : Type} (P : event -> Prop).

Lemma emits_ret (a : A) : emits P (ret a).
Proof. intros w. exists []. cbn. now rewrite app_nil_r. Qed.

Lemma emits_raise (e : exn) : emits P (@raise A e).
Proof. intros w. exists []. cbn. now rewrite app_nil_r. Qed.

Lemma emits_read (field : world -> A) : emits P (read field).
Proof. intros w. exists []. cbn. now rewrite app_nil_r. Qed.

Lemma emits_bind {B : Type} (c : M B) (k : B -> M A) :
  emits P c -> (forall b, emits P (k b)) -> emits P (bind c k).
Proof.
  intros Hc Hk w. destruct (Hc w) as [n1 [E1 F1]].
  unfold bind. destruct (c w) as [b w1|e w1]; cbn in E1.
  - destruct (Hk b w1) as [n2 [E2 F2]]. exists (n1 ++ n2).
    split; [now rewrite E2, E1, app_assoc | now apply Forall_app].
  - exists n1. now split.
Qed.

End Emits.

Lemma emits_emit (P : event -> Prop) (e : event) : P e -> emits P (emit e).
Proof. intros H w. exists [e]. cbn. split; [reflexivity | now constructor]. Qed.

Lemma emits_set_rotation_offset (P : event -> Prop) (v : Z) :
  emits P (set_rotation_offset v).
Proof. intros w. exists []. cbn. now rewrite app_nil_r. Qed.

Lemma emits_set_previous_status (P : event -> Prop) (v : option string) :
  emits P (set_previous_status v).
Proof. intros w. exists []. cbn. now rewrite app_nil_r. Qed.

Lemma Forall_posts (P : payload -> Prop) (t : list event) :
  Forall (fun e => match e with Post p _ => P p | _ => True end) t ->
  Forall P (posts t).
Proof.
  induction 1 as [|e t He _ IH]; cbn; [constructor|].
  destruct e; try exact IH. now constructor.
Qed.

Lemma Forall_calls (P : call -> Prop) (t : list event) :
  Forall (fun e => match e with Invoke c => P c | _ => True end) t ->
  Forall P (calls t).
Proof.
  induction 1 as [|e t He _ IH]; cbn; [constructor|].
  destruct e; try exact IH. now constructor.
Qed.

(** Decomposes a goal [emits P c] along the structure of [c]; what remains are
    the obligations [P e] for the events [c] can append. *)
Ltac emits_steps :=
  repeat first
    [ apply emits_ret
    | apply emits_raise
    | apply emits_read
    | apply emits_set_rotation_offset
    | apply emits_set_previous_status
    | apply emits_emit
    | apply emits_bind; [|intros ?]
    | match goal with
      | |- emits _ (if ?b then _ else _) => destruct b eqn:?
      | |- emits _ (match ?x with _ => _ end) => destruct x eqn:?
      end ].

(** ** Running the methods *)

Ltac exec :=
  cbv [iteration apply_progress_bar apply_vinyl_rotation clear_leds set_segment
       set_state set_individual_leds post get_state log sleep emit read bind ret
       raise set_rotation_offset set_previous_status py_mod final];
  cbn [trace rotation_offset previous_status].

Ltac traces := repeat rewrite ?posts_app, ?calls_app, <- ?app_assoc; cbn [posts calls app].

Section Properties.

Variable wled_ok : nat -> bool.
Variable math_sin : Q -> Q.

(** C10.  With [duration <= 0] the progress renderer returns [False] at once:
    nothing is posted, slept or logged, and neither [rotation_offset] nor
    [previous_status] changes; the call is the only thing the trace records. *)
Theorem progress_bar_rejects_bad_duration (cfg : config) (progress duration : Q) (w : world) :
  (duration <= 0)%Q ->
  apply_progress_bar wled_ok cfg progress duration w =
    Returned false
      (World (rotation_offset w) (previous_status w)
             (trace w ++ [Invoke (ProgressBarCall progress duration)])) /\
  posts (trace (final (apply_progress_bar wled_ok cfg progress duration w))) =
    posts (trace w).
Proof.
  intros H. apply Qle_bool_iff in H. exec. rewrite H. cbn. split; [reflexivity|].
  traces. now rewrite app_nil_r.
Qed.

Lemma progress_bar_run (cfg : config) (progress duration : Q) (w : world) :
  (0 < duration)%Q ->
  exists ok : bool,
    apply_progress_bar wled_ok cfg progress duration w =
      Returned ok
        (World (rotation_offset w) (previous_status w)
               (trace w ++ Invoke (ProgressBarCall progress duration)
                  :: posted
                       (PixelPayload
                          (progress_led_data (led_count cfg)
                             (leds_to_light (led_count cfg) progress duration)
                             (progress_bar_color cfg)))
                       ok "Error setting individual LEDs")).
Proof.
  intros H.
  assert (Hd : Qle_bool duration 0 = false).
  { destruct (Qle_bool duration 0) eqn:E; [|reflexivity].
    apply Qle_bool_iff in E. exfalso. exact (Qlt_not_le _ _ H E). }
  exec. rewrite Hd.
  match goal with |- context [wled_ok ?n] => exists (wled_ok n); destruct (wled_ok n) end;
    cbn; now rewrite <- !app_assoc.
Qed.



Lemma vinyl_led_data_frame (count offset : Z) (color : rgb) :
  vinyl_led_data math_sin count offset color =
  encode_frame
    (spec_rotation_frame count color (vinyl_intensity math_sin count offset)).
Proof.
  unfold vinyl_led_data, spec_rotation_frame.
  rewrite encode_frame_map, fold_left_extend. cbn [app].
  apply flat_map_ext. intros i.
  unfold vinyl_pixel, spec_scaled. now destruct color as [[c0 c1] c2].
Qed.

Lemma rotation_delay_ok (speed : Q) :
  (0 <= speed)%Q -> Qle_bool 0 (speed / 1000) = true.
Proof.
  intros H. apply Qle_bool_iff. unfold Qdiv.
  apply Qmult_le_0_compat; [exact H | unfold Qle; simpl; lia].
Qed.

Lemma vinyl_rotation_run (cfg : config) (w : world) :
  led_count cfg <> 0 ->
  (0 <= vinyl_rotation_speed cfg)%Q ->
  let offset := (rotation_offset w + 1) mod led_count cfg in
  exists ok : bool,
    apply_vinyl_rotation wled_ok math_sin cfg true w =
      Returned ok
        (World offset (previous_status w)
               (trace w ++ Invoke (VinylRotationCall true)
                  :: Sleep (vinyl_rotation_speed cfg / 1000)
                  :: posted
                       (PixelPayload
                          (vinyl_led_data math_sin (led_count cfg) offset
                             (vinyl_rotation_color cfg)))
                       ok "Error setting individual LEDs")).
Proof.
  intros Hn Hspeed offset. apply Z.eqb_neq in Hn.
  apply rotation_delay_ok in Hspeed.
  exec. rewrite Hn. cbn. rewrite Hspeed. cbn.
  match goal with |- context [wled_ok ?n] => exists (wled_ok n); destruct (wled_ok n) end;
    cbn; now rewrite <- !app_assoc.
Qed.

Lemma vinyl_intensity_range (count offset i : Z) :
  (forall x : Q, (-1 <= math_sin x <= 1)%Q) ->
  (0 <= vinyl_intensity math_sin count offset i <= 1)%Q.
Proof.
  intros Hsin. unfold vinyl_intensity.
  match goal with |- context [math_sin ?a] => destruct (Hsin a) as [Hlo Hhi]; set (s := math_sin a) in * end.
  clearbody s. destruct s as [n d]. unfold Qle in *. cbn in *. lia.
Qed.

Lemma spec_scaled_ok (color : rgb) (intensity : Q) :
  rgb_ok color -> (0 <= intensity <= 1)%Q -> rgb_ok (spec_scaled color intensity).
Proof.
  destruct color as [[r g] b]. intros (Hr & Hg & Hb) Hi. cbn.
  repeat split; now apply scaled_channel.
Qed.

(** C7.  When the three channels of the colour lie in [[0,255]], then at every
    phase every entry of the rotation frame carries, per channel, the channel
    times [(sin(angle)+1)/2] truncated to an integer, and that value lies in
    [[0,255]]; and this frame, at the advanced phase, is what the renderer
    posts. *)
Theorem rotation_channels_in_range (cfg : config) (w : world) :
  (forall x : Q, (-1 <= math_sin x <= 1)%Q) ->
  1 <= led_count cfg ->
  rgb_ok (vinyl_rotation_color cfg) ->
  (0 <= vinyl_rotation_speed cfg)%Q ->
  (forall phase : Z,
   exists f : frame,
     frame_of (vinyl_led_data math_sin (led_count cfg) phase (vinyl_rotation_color cfg)) =
       Some f /\
     f = spec_rotation_frame (led_count cfg) (vinyl_rotation_color cfg)
           (vinyl_intensity math_sin (led_count cfg) phase) /\
     forall (i : Z) (c : rgb), In (i, c) f -> rgb_ok c) /\
  exists (ok : bool) (w' : world),
    apply_vinyl_rotation wled_ok math_sin cfg true w = Returned ok w' /\
    posts (trace w') =
      posts (trace w) ++
      [PixelPayload (vinyl_led_data math_sin (led_count cfg) (rotation_offset w')
                       (vinyl_rotation_color cfg))].
Proof.
  intros Hsin Hn Hcol Hspeed. split.
  - intros phase. eexists. split; [|split; [reflexivity|]].
    + rewrite vinyl_led_data_frame. apply frame_of_encode.
    + intros i c Hin. unfold spec_rotation_frame in Hin.
      apply in_map_iff in Hin. destruct Hin as [j [Hj _]].
      injection Hj as _ <-. apply spec_scaled_ok; [exact Hcol|].
      now apply vinyl_intensity_range.
  - destruct (vinyl_rotation_run cfg w) as [ok Hrun]; [lia | exact Hspeed |].
    eexists ok, _. split; [exact Hrun|]. cbn [trace rotation_offset].
    unfold posted. destruct ok; traces; reflexivity.
Qed.

Lemma indexed_frame_complete (count : Z) (g : Z -> rgb) :
  complete_frame count (encode_frame (map (fun i => (i, g i)) (py_range count))).
Proof.
  exists (map (fun i => (i, g i)) (py_range count)).
  split; [apply frame_of_encode|]. split.
  - now rewrite length_map, py_range_length.
  - intros k Hk. rewrite map_map. cbn [fst]. rewrite map_id.
    rewrite (nth_indep _ (-1) 0) by now rewrite py_range_length.
    now apply py_range_nth.
Qed.

(** C8.  For [duration > 0] the number of lit LEDs does not decrease with the
    elapsed time: [lit(e1) <= lit(e2)] whenever [0 <= e1 <= e2 <= duration]. *)
Theorem leds_to_light_monotonic (count : Z) (e1 e2 duration : Q) :
  0 <= count -> (0 < duration)%Q ->
  (0 <= e1)%Q -> (e1 <= e2)%Q -> (e2 <= duration)%Q ->
  leds_to_light count e1 duration <= leds_to_light count e2 duration.
Proof.
  intros Hc Hd H1 H12 _.
  assert (H2 : (0 <= e2)%Q) by (apply Qle_trans with (y := e1); assumption).
  rewrite !leds_to_light_floor by assumption.
  apply Qfloor_resp_le.
  rewrite !(Qmult_comm (inject_Z count)).
  apply Qmult_le_compat_r; [|now apply inject_Z_nonneg].
  unfold progress_ratio. apply py_min_le_compat.
  unfold Qdiv. apply Qmult_le_compat_r; [exact H12|].
  apply Qinv_le_0_compat. now apply Qlt_le_weak.
Qed.

Ltac open_methods :=
  cbv [iteration run apply_progress_bar apply_vinyl_rotation clear_leds set_segment
       set_state set_individual_leds post get_state log sleep py_mod].

Lemma Qpositive_lt (a : Q) : Qpositive a = true -> (0 < a)%Q.
Proof.
  unfold Qpositive. intros H. apply Qnot_le_lt. intros Hc.
  apply Qle_bool_iff in Hc. rewrite Hc in H. discriminate.
Qed.

Lemma iteration_guarded (cfg : config) (response : option volumio_state) :
  emits guarded_call (iteration wled_ok math_sin cfg response).
Proof.
  open_methods. emits_steps; cbn; try exact I;
    match goal with
    | H : _ && Qpositive _ = true |- _ =>
        apply andb_prop in H; destruct H as [_ H]; now apply Qpositive_lt
    end.
Qed.

Lemma iteration_whole_frames (cfg : config) (response : option volumio_state) :
  1 <= led_count cfg ->
  emits (whole_frame (led_count cfg)) (iteration wled_ok math_sin cfg response).
Proof.
  intros Hn. open_methods. emits_steps; cbn; try exact I.
  all: first [ rewrite progress_led_data_frame | rewrite vinyl_led_data_frame ];
    apply indexed_frame_complete.
Qed.

Lemma loop_emits (P : event -> Prop) (cfg : config) (responses : list (option volumio_state)) :
  (forall response, emits P (iteration wled_ok math_sin cfg response)) ->
  emits P (loop wled_ok math_sin cfg responses).
Proof.
  intros H. induction responses as [|r rest IH]; cbn [loop].
  - apply emits_ret.
  - apply emits_bind; [apply H | intros _; exact IH].
Qed.

Lemma run_guarded (cfg : config) (responses : list (option volumio_state)) :
  emits guarded_call (run wled_ok math_sin cfg responses).
Proof.
  unfold run. apply emits_bind; [open_methods; emits_steps; exact I | intros _].
  apply emits_bind; [open_methods; emits_steps; exact I | intros _].
  apply emits_bind; [apply loop_emits, iteration_guarded | intros _].
  open_methods. emits_steps; exact I.
Qed.

(** C2.  With [ledCount >= 1] and a valid rotation delay, the frame posted by
    the progress renderer (for [duration > 0]) and the one posted by the
    rotation renderer have exactly [ledCount] entries, the [k]-th being that of
    LED [k]; and every per-LED array a tick of the loop posts is such a
    frame. *)
Theorem frames_are_complete
    (cfg : config) (progress duration : Q) (w : world) :
  1 <= led_count cfg ->
  (0 <= vinyl_rotation_speed cfg)%Q ->
  ((0 < duration)%Q ->
   exists (ok : bool) (w' : world) (led_data : list Z),
     apply_progress_bar wled_ok cfg progress duration w = Returned ok w' /\
     posts (trace w') = posts (trace w) ++ [PixelPayload led_data] /\
     complete_frame (led_count cfg) led_data) /\
  (exists (ok : bool) (w' : world) (led_data : list Z),
     apply_vinyl_rotation wled_ok math_sin cfg true w = Returned ok w' /\
     posts (trace w') = posts (trace w) ++ [PixelPayload led_data] /\
     complete_frame (led_count cfg) led_data) /\
  (forall response : option volumio_state,
   exists new : list event,
     trace (final (iteration wled_ok math_sin cfg response w)) = trace w ++ new /\
     forall led_data : list Z,
       In (PixelPayload led_data) (posts new) ->
       complete_frame (led_count cfg) led_data).
Proof.
  intros Hn Hspeed. split; [|split].
  - intros Hd. destruct (progress_bar_run cfg progress duration w Hd) as [ok Hrun].
    eexists ok, _, _. split; [exact Hrun|]. cbn [trace]. split.
    + unfold posted. destruct ok; traces; reflexivity.
    + rewrite progress_led_data_frame. apply indexed_frame_complete.
  - destruct (vinyl_rotation_run cfg w) as [ok Hrun]; [lia | exact Hspeed |].
    eexists ok, _, _. split; [exact Hrun|]. cbn [trace]. split.
    + unfold posted. destruct ok; traces; reflexivity.
    + rewrite vinyl_led_data_frame. apply indexed_frame_complete.
  - intros response.
    destruct (iteration_whole_frames cfg response Hn w) as [new [E F]].
    exists new. split; [exact E|]. intros led_data Hin.
    assert (G : Forall (fun p => match p with
                                 | PixelPayload d => complete_frame (led_count cfg) d
                                 | _ => True
                                 end) (posts new)).
    { apply Forall_posts. eapply Forall_impl; [|exact F].
      intros e He. destruct e as [[| |] | | |]; exact He || exact I. }
    rewrite Forall_forall in G. exact (G _ Hin).
Qed.

Lemma not_selectable (cfg : config) (duration : Q) :
  progress_bar_enabled cfg = false \/ (duration <= 0)%Q ->
  progress_bar_enabled cfg && Qpositive duration = false.
Proof.
  intros [H|H].
  - now rewrite H.
  - apply Qle_bool_iff in H. unfold Qpositive. rewrite H. apply andb_false_r.
Qed.

Ltac pick_branch Hstatus Hsel :=
  cbv [iteration get_state bind ret read];
  rewrite Hstatus; cbn [get String.eqb Ascii.eqb Bool.eqb];
  rewrite Hsel.

Ltac network :=
  repeat match goal with
         | |- context [wled_ok ?n] => destruct (wled_ok n)
         | |- context [Qle_bool 0 ?s] => destruct (Qle_bool 0 s)
         end.

(** C3, as the code has it.  While playing with no selectable progress effect
    and the rotation disabled, the tick posts nothing to the controller: it
    calls neither renderer and leaves the rotation offset alone. *)
Theorem playing_without_effect_posts_nothing
    (cfg : config) (st : volumio_state) (w : world) :
  st_status st = Some "play"%string ->
  progress_bar_enabled cfg = false \/ (get (st_duration st) 0 <= 0)%Q ->
  vinyl_rotation_enabled cfg = false ->
  let w' := final (iteration wled_ok math_sin cfg (Some st) w) in
  posts (trace w') = posts (trace w) /\
  calls (trace w') = calls (trace w) /\
  rotation_offset w' = rotation_offset w.
Proof.
  intros Hs Hsel Hrot. apply not_selectable in Hsel. cbn zeta.
  pick_branch Hs Hsel. rewrite Hrot. exec.
  destruct (status_changed _ _); cbn; network; cbn; traces;
    rewrite ?app_nil_r; auto.
Qed.

(** C4.  With the progress bar enabled, a playing tick whose duration is zero
    (or absent, or negative) does not call the progress renderer: the only
    call is that of the rotation, when it is enabled.  More generally every
    call of the progress renderer made by [run], on any answers of the player,
    has [duration > 0], so its [duration <= 0] branch is never taken from the
    loop. *)
Theorem progress_not_selected_without_duration
    (cfg : config) (st : volumio_state) (w : world) :
  progress_bar_enabled cfg = true ->
  st_status st = Some "play"%string ->
  (get (st_duration st) 0 <= 0)%Q ->
  calls (trace (final (iteration wled_ok math_sin cfg (Some st) w))) =
    calls (trace w) ++
    (if vinyl_rotation_enabled cfg then [VinylRotationCall true] else []) /\
  forall (responses : list (option volumio_state)) (w0 : world),
    exists new : list event,
      trace (final (run wled_ok math_sin cfg responses w0)) = trace w0 ++ new /\
      forall progress duration : Q,
        In (ProgressBarCall progress duration) (calls new) -> (0 < duration)%Q.
Proof.
  intros _ Hs Hd. split.
  - assert (Hsel : progress_bar_enabled cfg && Qpositive (get (st_duration st) 0%Q) = false)
      by (apply not_selectable; now right).
    pick_branch Hs Hsel. exec.
    destruct (status_changed _ _), (vinyl_rotation_enabled cfg); cbn;
      try destruct (led_count cfg =? 0); cbn; network; cbn; traces;
      rewrite ?app_nil_r; reflexivity.
  - intros responses w0.
    destruct (run_guarded cfg responses w0) as [new [E F]].
    exists new. split; [exact E|]. intros progress duration Hin.
    assert (G : Forall (fun c => match c with
                                 | ProgressBarCall _ d => (0 < d)%Q
                                 | _ => True
                                 end) (calls new)).
    { apply Forall_calls. eapply Forall_impl; [|exact F].
      intros e He. destruct e as [ | | |[|]]; exact He || exact I. }
    rewrite Forall_forall in G. exact (G _ Hin).
Qed.

(** C5.  A tick whose poll fails logs the failure, sleeps the configured
    interval and goes on with the next poll: [rotation_offset] and
    [previous_status] keep their values and nothing is posted. *)
Theorem failed_poll_skips_tick
    (cfg : config) (rest : list (option volumio_state)) (w : world) :
  (0 <= update_interval cfg)%Q ->
  let w' := World (rotation_offset w) (previous_status w)
              (trace w ++ [Log ERROR "Error getting Volumio state";
                           Log WARNING "Could not get Volumio state, retrying...";
                           Sleep (update_interval cfg)]) in
  iteration wled_ok math_sin cfg None w = Returned tt w' /\
  posts (trace w') = posts (trace w) /\
  calls (trace w') = calls (trace w) /\
  loop wled_ok math_sin cfg (None :: rest) w = loop wled_ok math_sin cfg rest w'.
Proof.
  intros Hi. apply Qle_bool_iff in Hi.
  assert (E : iteration wled_ok math_sin cfg None w =
              Returned tt
                (World (rotation_offset w) (previous_status w)
                   (trace w ++ [Log ERROR "Error getting Volumio state";
                                Log WARNING "Could not get Volumio state, retrying...";
                                Sleep (update_interval cfg)]))).
  { exec. rewrite Hi. cbn. now rewrite <- !app_assoc. }
  cbn zeta. split; [exact E|]. cbn [trace]. traces. rewrite !app_nil_r.
  repeat split. cbn [loop]. unfold bind at 1. now rewrite E.
Qed.

(** C6.  While paused with no selectable progress effect, the one request of
    the tick switches the strip on with brightness [brightness // 4], the
    floor of a quarter of the configured brightness; no clear and no
    power-off is posted. *)
Theorem paused_dims (cfg : config) (st : volumio_state) (w : world) :
  st_status st = Some "pause"%string ->
  progress_bar_enabled cfg = false \/ (get (st_duration st) 0 <= 0)%Q ->
  posts (trace (final (iteration wled_ok math_sin cfg (Some st) w))) =
    posts (trace w) ++ [StatePayload true (Some (brightness cfg / 4))] /\
  brightness cfg / 4 = Qfloor (inject_Z (brightness cfg) / 4).
Proof.
  intros Hs Hsel. apply not_selectable in Hsel.
  split; [|apply (Zdiv_Qdiv (brightness cfg) 4)].
  pick_branch Hs Hsel. exec.
  destruct (status_changed _ _); cbn; network; cbn; traces;
    rewrite ?app_nil_r; reflexivity.
Qed.

(** C9.  A state without a [status] key is handled exactly as one whose status
    is [stop]: the tick posts the request clearing all LEDs and calls neither
    renderer. *)
Theorem missing_status_is_stop (cfg : config) (st : volumio_state) (w : world) :
  st_status st = None ->
  iteration wled_ok math_sin cfg (Some st) w =
    iteration wled_ok math_sin cfg
      (Some (VolumioState (Some "stop"%string) (st_seek st) (st_duration st))) w /\
  posts (trace (final (iteration wled_ok math_sin cfg (Some st) w))) =
    posts (trace w) ++ [SegmentPayload 0 0 (Some (led_count cfg)) (0, 0, 0)] /\
  calls (trace (final (iteration wled_ok math_sin cfg (Some st) w))) =
    calls (trace w).
Proof.
  intros Hs. split.
  - cbv [iteration get_state bind ret read].
    cbn [st_status st_seek st_duration]. now rewrite Hs.
  - cbv [iteration get_state bind ret read]. rewrite Hs.
    cbn [get String.eqb Ascii.eqb Bool.eqb]. exec.
    destruct (status_changed _ _); cbn; network; cbn; traces;
      rewrite ?app_nil_r; split; reflexivity.
Qed.

End Properties.

(** ** The properties at sample inputs *)

Lemma sin_cut_range (x : Q) : (-1 <= sin_cut x <= 1)%Q.
Proof.
  unfold sin_cut, clamp. split.
  - apply Q.le_max_l.
  - apply Q.max_lub; [unfold Qle; simpl; lia | apply Q.le_min_r].
Qed.

(** The scenario of the specification: 50 s into a track of 200 s on ten LEDs
    lights LEDs 0 and 1. *)
Example progress_scenario :
  iteration wled_up sin_cut demo_config (Some playing_state) initial_world =
    Returned tt
      (World 0 (Some "play"%string)
         [Log INFO "Player status changed: None -> play";
          Invoke (ProgressBarCall (50000 / 1000) 200);
          Post (PixelPayload
                  [0; 10; 20; 30; 1; 10; 20; 30; 2; 0; 0; 0; 3; 0; 0; 0;
                   4; 0; 0; 0; 5; 0; 0; 0; 6; 0; 0; 0; 7; 0; 0; 0;
                   8; 0; 0; 0; 9; 0; 0; 0]) true;
          Sleep (1 # 2)]).
Proof. reflexivity. Qed.



Lemma frames_are_complete_witness :
  ((0 < 200)%Q ->
   exists (ok : bool) (w' : world) (led_data : list Z),
     apply_progress_bar wled_up demo_config 50 200 initial_world = Returned ok w' /\
     posts (trace w') = posts (trace initial_world) ++ [PixelPayload led_data] /\
     complete_frame (led_count demo_config) led_data) /\
  (exists (ok : bool) (w' : world) (led_data : list Z),
     apply_vinyl_rotation wled_up sin_cut demo_config true initial_world = Returned ok w' /\
     posts (trace w') = posts (trace initial_world) ++ [PixelPayload led_data] /\
     complete_frame (led_count demo_config) led_data) /\
  (forall response : option volumio_state,
   exists new : list event,
     trace (final (iteration wled_up sin_cut demo_config response initial_world)) =
       trace initial_world ++ new /\
     forall led_data : list Z,
       In (PixelPayload led_data) (posts new) ->
       complete_frame (led_count demo_config) led_data).
Proof.
  apply (frames_are_complete wled_up sin_cut demo_config 50 200 initial_world).
  - simpl; lia.
  - unfold Qle; simpl; lia.
Defined.

(** C3 as stated fails: playing on a strip with no effect enabled, the tick
    posts no request at all, so no command turning the LEDs off. *)
Lemma playing_without_effect_no_off_command :
  st_status playing_state = Some "play"%string /\
  progress_bar_enabled idle_config = false /\
  vinyl_rotation_enabled idle_config = false /\
  iteration wled_up sin_cut idle_config (Some playing_state) initial_world =
    Returned tt
      (World 0 (Some "play"%string)
         [Log INFO "Player status changed: None -> play"; Sleep (1 # 2)]) /\
  posts (trace (final (iteration wled_up sin_cut idle_config
                         (Some playing_state) initial_world))) = [].
Proof. repeat split. Qed.

Lemma playing_without_effect_posts_nothing_witness :
  let w' := final (iteration wled_up sin_cut idle_config (Some playing_state)
                     initial_world) in
  posts (trace w') = posts (trace initial_world) /\
  calls (trace w') = calls (trace initial_world) /\
  rotation_offset w' = rotation_offset initial_world.
Proof.
  apply (playing_without_effect_posts_nothing wled_up sin_cut idle_config
           playing_state initial_world).
  - reflexivity.
  - left; reflexivity.
  - reflexivity.
Defined.

Lemma failed_poll_skips_tick_witness :
  let w' := World (rotation_offset initial_world) (previous_status initial_world)
              (trace initial_world ++
               [Log ERROR "Error getting Volumio state";
                Log WARNING "Could not get Volumio state, retrying...";
                Sleep (update_interval demo_config)]) in
  iteration wled_up sin_cut demo_config None initial_world = Returned tt w' /\
  posts (trace w') = posts (trace initial_world) /\
  calls (trace w') = calls (trace initial_world) /\
  loop wled_up sin_cut demo_config [None; Some playing_state] initial_world =
    loop wled_up sin_cut demo_config [Some playing_state] w'.
Proof.
  apply (failed_poll_skips_tick wled_up sin_cut demo_config [Some playing_state]
           initial_world).
  unfold Qle; simpl; lia.
Defined.

Lemma progress_not_selected_without_duration_witness :
  calls (trace (final (iteration wled_up sin_cut demo_config
                         (Some playing_unknown) initial_world))) =
    calls (trace initial_world) ++
    (if vinyl_rotation_enabled demo_config then [VinylRotationCall true] else []) /\
  forall (responses : list (option volumio_state)) (w0 : world),
    exists new : list event,
      trace (final (run wled_up sin_cut demo_config responses w0)) = trace w0 ++ new /\
      forall progress duration : Q,
        In (ProgressBarCall progress duration) (calls new) -> (0 < duration)%Q.
Proof.
  apply (progress_not_selected_without_duration wled_up sin_cut demo_config
           playing_unknown initial_world).
  - reflexivity.
  - reflexivity.
  - unfold Qle; simpl; lia.
Defined.

Lemma paused_dims_witness :
  posts (trace (final (iteration wled_up sin_cut demo_config
                         (Some paused_unknown) initial_world))) =
    posts (trace initial_world) ++
    [StatePayload true (Some (brightness demo_config / 4))] /\
  brightness demo_config / 4 = Qfloor (inject_Z (brightness demo_config) / 4).
Proof.
  apply (paused_dims wled_up sin_cut demo_config paused_unknown initial_world).
  - reflexivity.
  - right. unfold Qle; simpl; lia.
Defined.

Lemma rotation_channels_in_range_witness :
  (forall phase : Z,
   exists f : frame,
     frame_of (vinyl_led_data sin_cut (led_count demo_config) phase
                 (vinyl_rotation_color demo_config)) = Some f /\
     f = spec_rotation_frame (led_count demo_config) (vinyl_rotation_color demo_config)
           (vinyl_intensity sin_cut (led_count demo_config) phase) /\
     forall (i : Z) (c : rgb), In (i, c) f -> rgb_ok c) /\
  exists (ok : bool) (w' : world),
    apply_vinyl_rotation wled_up sin_cut demo_config true initial_world =
      Returned ok w' /\
    posts (trace w') =
      posts (trace initial_world) ++
      [PixelPayload (vinyl_led_data sin_cut (led_count demo_config) (rotation_offset w')
                       (vinyl_rotation_color demo_config))].
Proof.
  apply (rotation_channels_in_range wled_up sin_cut demo_config initial_world).
  - exact sin_cut_range.
  - simpl; lia.
  - unfold rgb_ok, channel; simpl; lia.
  - unfold Qle; simpl; lia.
Defined.

Lemma leds_to_light_monotonic_witness :
  leds_to_light 10 50 200 <= leds_to_light 10 150 200.
Proof.
  apply (leds_to_light_monotonic 10 50 150 200).
  - lia.
  - unfold Qlt; simpl; lia.
  - unfold Qle; simpl; lia.
  - unfold Qle; simpl; lia.
  - unfold Qle; simpl; lia.
Defined.

Lemma missing_status_is_stop_witness :
  iteration wled_up sin_cut demo_config (Some statusless_state) initial_world =
    iteration wled_up sin_cut demo_config
      (Some (VolumioState (Some "stop"%string) (st_seek statusless_state)
               (st_duration statusless_state))) initial_world /\
  posts (trace (final (iteration wled_up sin_cut demo_config
                         (Some statusless_state) initial_world))) =
    posts (trace initial_world) ++
    [SegmentPayload 0 0 (Some (led_count demo_config)) (0, 0, 0)] /\
  calls (trace (final (iteration wled_up sin_cut demo_config
                         (Some statusless_state) initial_world))) =
    calls (trace initial_world).
Proof.
  apply (missing_status_is_stop wled_up sin_cut demo_config statusless_state
           initial_world).
  reflexivity.
Defined.

Lemma progress_bar_rejects_bad_duration_witness :
  apply_progress_bar wled_up demo_config 50 0 initial_world =
    Returned false
      (World (rotation_offset initial_world) (previous_status initial_world)
             (trace initial_world ++ [Invoke (ProgressBarCall 50 0)])) /\
  posts (trace (final (apply_progress_bar wled_up demo_config 50 0 initial_world))) =
    posts (trace initial_world).
Proof.
  apply (progress_bar_rejects_bad_duration wled_up demo_config 50 0 initial_world).
  unfold Qle; simpl; lia.
Defined.

(** * The rest of the behaviour of the code *)

(** ** How far the progress bar reaches *)

Lemma floor_ge (z : Z) (x : Q) : z <= Qfloor x <-> (inject_Z z <= x)%Q.
Proof.
  split; intros H.
  - apply Qle_trans with (y := inject_Z (Qfloor x)); [|apply Qfloor_le].
    now rewrite <- Zle_Qle.
  - rewrite <- (Qfloor_Z z). now apply Qfloor_resp_le.
Qed.

Lemma progress_ratio_le_1 (progress duration : Q) :
  (progress_ratio progress duration <= 1)%Q.
Proof.
  unfold progress_ratio, py_min.
  destruct (Qle_bool (progress / duration) 1) eqn:E.
  - now apply Qle_bool_iff.
  - apply Qle_refl.
Qed.

Lemma ratio_ge_1 (progress duration : Q) :
  (0 < duration)%Q -> (duration <= progress)%Q -> (1 <= progress / duration)%Q.
Proof.
  intros Hd Hp. apply Qle_shift_div_l; [exact Hd|]. now rewrite Qmult_1_l.
Qed.

Lemma progress_ratio_full (progress duration : Q) :
  (0 < duration)%Q -> (duration <= progress)%Q ->
  (progress_ratio progress duration == 1)%Q.
Proof.
  intros Hd Hp. pose proof (ratio_ge_1 _ _ Hd Hp) as H1.
  unfold progress_ratio, py_min.
  destruct (Qle_bool (progress / duration) 1) eqn:E; [|reflexivity].
  apply Qle_bool_iff in E. now apply Qle_antisym.
Qed.

(** X1.  For [progress >= 0] and [duration > 0] the number of LEDs to light is
    between 0 and the length of the strip. *)
Theorem leds_to_light_bounds (count : Z) (progress duration : Q) :
  0 <= count -> (0 <= progress)%Q -> (0 < duration)%Q ->
  0 <= leds_to_light count progress duration <= count.
Proof.
  intros Hc Hp Hd. rewrite leds_to_light_floor by assumption. split.
  - apply floor_ge. apply Qmult_le_0_compat; [now apply inject_Z_nonneg|].
    now apply progress_ratio_nonneg.
  - rewrite <- (Qfloor_Z count) at 2. apply Qfloor_resp_le.
    rewrite <- (Qmult_1_r (inject_Z count)) at 2.
    rewrite !(Qmult_comm (inject_Z count)).
    apply Qmult_le_compat_r; [apply progress_ratio_le_1 | now apply inject_Z_nonneg].
Qed.

(** X2.  Once the position has reached the duration the whole strip is lit:
    every LED of the frame carries the configured colour. *)
Theorem progress_bar_full (count : Z) (progress duration : Q) (color : rgb) :
  0 <= count -> (0 < duration)%Q -> (duration <= progress)%Q ->
  leds_to_light count progress duration = count /\
  frame_of (progress_led_data count (leds_to_light count progress duration) color) =
    Some (map (fun i => (i, color)) (py_range count)).
Proof.
  intros Hc Hd Hp.
  assert (H0 : (0 <= progress)%Q).
  { apply Qle_trans with (y := duration); [now apply Qlt_le_weak | exact Hp]. }
  assert (E : leds_to_light count progress duration = count).
  { rewrite leds_to_light_floor by assumption.
    rewrite <- (Qfloor_Z count) at 2. apply Qfloor_comp.
    rewrite (progress_ratio_full _ _ Hd Hp). apply Qmult_1_r. }
  split; [exact E|]. rewrite E, progress_led_data_frame, frame_of_encode.
  f_equal. unfold spec_progress_frame. apply map_ext_in.
  intros i Hi. apply py_range_In in Hi.
  destruct (Z.ltb_spec i count); [reflexivity | lia].
Qed.

Lemma py_int_nonpos (x : Q) : (x <= 0)%Q -> py_int x <= 0.
Proof.
  destruct x as [n d]. unfold Qle, py_int; cbn. intros H.
  apply Z.quot_le_upper_bound; lia.
Qed.

(** X3.  At position zero, and for a negative position, no LED is lit: the
    frame sets every LED to black. *)
Theorem progress_bar_empty (count : Z) (progress duration : Q) (color : rgb) :
  0 <= count -> (0 < duration)%Q -> (progress <= 0)%Q ->
  leds_to_light count progress duration <= 0 /\
  frame_of (progress_led_data count (leds_to_light count progress duration) color) =
    Some (map (fun i => (i, (0, 0, 0))) (py_range count)).
Proof.
  intros Hc Hd Hp.
  assert (Hr : (progress / duration <= 0)%Q).
  { apply Qle_shift_div_r; [exact Hd|]. now rewrite Qmult_0_l. }
  assert (E : leds_to_light count progress duration <= 0).
  { unfold leds_to_light. apply py_int_nonpos.
    unfold progress_ratio, py_min.
    assert (H1 : Qle_bool (progress / duration) 1 = true).
    { apply Qle_bool_iff. apply Qle_trans with (y := 0%Q); [exact Hr|].
      unfold Qle; simpl; lia. }
    rewrite H1. rewrite Qmult_comm.
    setoid_replace 0%Q with (0 * inject_Z count)%Q by now rewrite Qmult_0_l.
    apply Qmult_le_compat_r; [exact Hr | now apply inject_Z_nonneg]. }
  split; [exact E|]. rewrite progress_led_data_frame, frame_of_encode.
  f_equal. unfold spec_progress_frame. apply map_ext_in.
  intros i Hi. apply py_range_In in Hi.
  destruct (Z.ltb_spec i (leds_to_light count progress duration)); [lia | reflexivity].
Qed.


(** ** The rotation *)

Ltac branches :=
  repeat match goal with
         | |- context [if ?b then _ else _] => destruct b eqn:?
         end.

Section Coverage.

Variable wled_ok : nat -> bool.
Variable math_sin : Q -> Q.

(** X5.  The rotation frame depends on the offset only modulo the length of
    the strip. *)
Theorem rotation_frame_periodic (count offset k : Z) (color : rgb) :
  vinyl_led_data math_sin count (offset + k * count) color =
  vinyl_led_data math_sin count offset color.
Proof.
  unfold vinyl_led_data. apply fold_left_pointwise. intros acc i.
  unfold vinyl_pixel, vinyl_intensity.
  replace (i - (offset + k * count)) with (i - offset + (- k) * count) by ring.
  now rewrite Z_mod_plus_full.
Qed.

(** X6.  Advancing the offset by one moves the pattern one LED along the
    strip, wrapping at the end: after the advance, LED [(i+1) % count] shows
    what LED [i] showed before. *)
Theorem rotation_advance_shifts (count offset i : Z) (color : rgb) :
  let offset' := (offset + 1) mod count in
  let j := (i + 1) mod count in
  vinyl_intensity math_sin count offset' j = vinyl_intensity math_sin count offset i /\
  vinyl_pixel math_sin count offset' color j =
    j :: tl (vinyl_pixel math_sin count offset color i).
Proof.
  cbn zeta.
  assert (E : ((i + 1) mod count - (offset + 1) mod count) mod count =
              (i - offset) mod count).
  { rewrite <- Zminus_mod. f_equal. ring. }
  assert (EI : vinyl_intensity math_sin count ((offset + 1) mod count) ((i + 1) mod count) =
               vinyl_intensity math_sin count offset i).
  { unfold vinyl_intensity. now rewrite E. }
  split; [exact EI|].
  unfold vinyl_pixel. rewrite EI. now destruct color as [[c0 c1] c2].
Qed.

Lemma tick_offset_in_range (cfg : config) (response : option volumio_state) (w : world) :
  0 <= rotation_offset w < led_count cfg ->
  0 <= rotation_offset (final (iteration wled_ok math_sin cfg response w)) < led_count cfg.
Proof.
  intros H. destruct response as [st|]; exec; unfold Qpositive; branches; cbn; try exact H.
  all: apply Z.mod_pos_bound; lia.
Qed.

Lemma loop_final_ind (I : world -> Prop) (cfg : config) :
  (forall response w, I w -> I (final (iteration wled_ok math_sin cfg response w))) ->
  forall responses w, I w -> I (final (loop wled_ok math_sin cfg responses w)).
Proof.
  intros Hstep responses. induction responses as [|r rest IH]; intros w Hw.
  - exact Hw.
  - cbn [loop]. unfold bind. specialize (Hstep r w Hw).
    destruct (iteration wled_ok math_sin cfg r w) as [[] w1|e w1]; cbn in *.
    + now apply IH.
    + exact Hstep.
Qed.

(** X7.  The rotation offset never leaves [[0, led_count)]: whatever the
    player answers and whether or not the requests succeed, a loop started with
    the offset in that range ends with it in that range. *)
Theorem rotation_offset_stays_in_range
    (cfg : config) (responses : list (option volumio_state)) (w : world) :
  0 <= rotation_offset w < led_count cfg ->
  0 <= rotation_offset (final (loop wled_ok math_sin cfg responses w)) < led_count cfg.
Proof.
  intros H.
  apply (loop_final_ind (fun w => 0 <= rotation_offset w < led_count cfg)); [|exact H].
  intros response w0. apply tick_offset_in_range.
Qed.

Lemma rotating_tick (cfg : config) (response : option volumio_state) (w : world) :
  rotating cfg response ->
  vinyl_rotation_enabled cfg = true ->
  led_count cfg <> 0 ->
  (0 <= vinyl_rotation_speed cfg)%Q ->
  (0 <= update_interval cfg)%Q ->
  exists w' : world,
    iteration wled_ok math_sin cfg response w = Returned tt w' /\
    rotation_offset w' = (rotation_offset w + 1) mod led_count cfg /\
    posts (trace w') =
      posts (trace w) ++
      [PixelPayload (vinyl_led_data math_sin (led_count cfg) (rotation_offset w')
                       (vinyl_rotation_color cfg))].
Proof.
  intros (st & -> & Hs & Hsel) Hrot Hn Hspeed Hint.
  apply not_selectable in Hsel. apply Z.eqb_neq in Hn.
  apply rotation_delay_ok in Hspeed. apply Qle_bool_iff in Hint.
  cbv [iteration get_state bind ret read]. rewrite Hs.
  cbn [get String.eqb Ascii.eqb Bool.eqb]. rewrite Hsel, Hrot. exec.
  destruct (status_changed _ _);
    repeat (first [ rewrite Hn | rewrite Hspeed | rewrite Hint
                  | match goal with |- context [wled_ok ?n] => destruct (wled_ok n) end ];
            cbn);
    eexists; (split; [reflexivity|]); cbn; traces; rewrite ?app_nil_r;
    split; reflexivity.
Qed.

(** X8.  Each tick that falls through to the rotation advances the offset by
    one modulo the length of the strip and posts one request; after as many
    such ticks as the strip has LEDs the offset is back where it started. *)
Theorem rotation_offset_after_ticks
    (cfg : config) (responses : list (option volumio_state)) (w : world) :
  Forall (rotating cfg) responses ->
  vinyl_rotation_enabled cfg = true ->
  (0 <= vinyl_rotation_speed cfg)%Q ->
  (0 <= update_interval cfg)%Q ->
  0 <= rotation_offset w < led_count cfg ->
  exists w' : world,
    loop wled_ok math_sin cfg responses w = Returned tt w' /\
    rotation_offset w' =
      (rotation_offset w + Z.of_nat (List.length responses)) mod led_count cfg /\
    List.length (posts (trace w')) =
      (List.length (posts (trace w)) + List.length responses)%nat /\
    (Z.of_nat (List.length responses) = led_count cfg ->
     rotation_offset w' = rotation_offset w).
Proof.
  intros Hall Hrot Hspeed Hint Ho.
  assert (Hmain : exists w' : world,
            loop wled_ok math_sin cfg responses w = Returned tt w' /\
            rotation_offset w' =
              (rotation_offset w + Z.of_nat (List.length responses)) mod led_count cfg /\
            List.length (posts (trace w')) =
              (List.length (posts (trace w)) + List.length responses)%nat).
  { revert w Ho. induction Hall as [|r rest Hr _ IH]; intros w Ho.
    - exists w. cbn. split; [reflexivity|]. split; [|lia].
      rewrite Z.add_0_r. symmetry. now apply Z.mod_small.
    - destruct (rotating_tick cfg r w Hr Hrot) as (w1 & E1 & O1 & P1);
        [lia | exact Hspeed | exact Hint |].
      assert (Ho1 : 0 <= rotation_offset w1 < led_count cfg).
      { rewrite O1. apply Z.mod_pos_bound. lia. }
      destruct (IH w1 Ho1) as (w2 & E2 & O2 & P2).
      exists w2. split; [|split].
      + cbn [loop]. unfold bind. now rewrite E1.
      + rewrite O2, O1. cbn [List.length]. rewrite Nat2Z.inj_succ.
        rewrite Zplus_mod_idemp_l. f_equal. lia.
      + rewrite P2, P1, length_app. cbn [List.length]. lia. }
  destruct Hmain as (w' & E & O & P). exists w'.
  split; [exact E|]. split; [exact O|]. split; [exact P|].
  intros Hk. rewrite O, Hk.
  replace (rotation_offset w + led_count cfg)
    with (rotation_offset w + 1 * led_count cfg) by ring.
  rewrite Z_mod_plus_full. now apply Z.mod_small.
Qed.

(** ** One tick of the loop *)

Ltac oracle :=
  repeat match goal with |- context [wled_ok ?n] => destruct (wled_ok n) end.

(** X9.  Only a tick that sees the status [play] can move the rotation
    offset: a failed poll and every other status leave it as it was. *)
Theorem offset_moves_only_when_playing
    (cfg : config) (response : option volumio_state) (w : world) :
  (forall st, response = Some st -> get (st_status st) "stop"%string <> "play"%string) ->
  rotation_offset (final (iteration wled_ok math_sin cfg response w)) =
    rotation_offset w.
Proof.
  intros H. destruct response as [st|].
  - specialize (H st eq_refl). apply String.eqb_neq in H.
    cbv [iteration get_state bind ret read]. rewrite H.
    exec. unfold Qpositive. branches; reflexivity.
  - exec. branches; reflexivity.
Qed.

Lemma tick_posts_at_most_one
    (cfg : config) (response : option volumio_state) (w : world) :
  exists new : list event,
    trace (final (iteration wled_ok math_sin cfg response w)) = trace w ++ new /\
    (List.length (posts new) <= 1)%nat.
Proof.
  destruct response as [st|]; exec; unfold Qpositive; branches; cbn;
    rewrite <- ?app_assoc; cbn [app];
    first [ eexists; split; [reflexivity|]; cbn; lia
          | exists []; split; [now rewrite app_nil_r | cbn; lia] ].
Qed.

(** X10.  A tick sends at most one request to the controller, whatever the
    player answered and whether or not the request succeeds: a failed request
    is not repeated within the tick. *)
Theorem at_most_one_request_per_tick
    (cfg : config) (response : option volumio_state) (w : world) :
  exists new : list event,
    trace (final (iteration wled_ok math_sin cfg response w)) = trace w ++ new /\
    (List.length (posts new) <= 1)%nat.
Proof. apply tick_posts_at_most_one. Qed.

Lemma infos_app (t1 t2 : list event) : infos (t1 ++ t2) = infos t1 ++ infos t2.
Proof.
  induction t1 as [|e t1 IH]; cbn; [reflexivity|].
  destruct e as [| |[| |]|]; cbn; now rewrite IH.
Qed.

Ltac info_traces := repeat rewrite ?infos_app, <- ?app_assoc; cbn [infos app].

(** X11.  After a tick with a successful poll [previous_status] holds the
    status of that poll ([stop] when the key is absent), and the change is
    logged at level INFO exactly when the status differs from the previous
    one; a second tick on the same answer logs no change. *)
Theorem status_change_logged_once (cfg : config) (st : volumio_state) (w : world) :
  let status := get (st_status st) "stop"%string in
  let w' := final (iteration wled_ok math_sin cfg (Some st) w) in
  let w'' := final (iteration wled_ok math_sin cfg (Some st) w') in
  previous_status w' = Some status /\
  infos (trace w') =
    infos (trace w) ++
    (if status_changed status (previous_status w)
     then ["Player status changed: " ++ show_status (previous_status w) ++ " -> " ++ status]%string
     else []) /\
  infos (trace w'') = infos (trace w').
Proof.
  cbn zeta.
  assert (H1 : forall w0,
             previous_status (final (iteration wled_ok math_sin cfg (Some st) w0)) =
               Some (get (st_status st) "stop"%string) /\
             infos (trace (final (iteration wled_ok math_sin cfg (Some st) w0))) =
               infos (trace w0) ++
               (if status_changed (get (st_status st) "stop"%string) (previous_status w0)
                then ["Player status changed: " ++ show_status (previous_status w0) ++ " -> "
                        ++ get (st_status st) "stop"]%string
                else [])).
  { intros w0. exec. unfold Qpositive.
    destruct (status_changed (get (st_status st) "stop"%string) (previous_status w0)) eqn:Hc.
    - branches; cbn; info_traces; rewrite ?app_nil_r; split; reflexivity.
    - assert (Hp : previous_status w0 = Some (get (st_status st) "stop"%string)).
      { unfold status_changed in Hc. destruct (previous_status w0) as [p|]; [|discriminate].
        apply negb_false_iff, String.eqb_eq in Hc. now subst. }
      branches; cbn; info_traces; rewrite ?app_nil_r; split; assumption || reflexivity. }
  destruct (H1 w) as [P1 I1]. split; [exact P1|]. split; [exact I1|].
  destruct (H1 (final (iteration wled_ok math_sin cfg (Some st) w))) as [_ I2].
  rewrite I2, P1. unfold status_changed. rewrite String.eqb_refl. cbn.
  apply app_nil_r.
Qed.

Lemma unchanged_status (status : string) (previous : option string) :
  status_changed status previous = false -> previous = Some status.
Proof.
  unfold status_changed. destruct previous as [p|]; [|discriminate].
  intros H. apply negb_false_iff, String.eqb_eq in H. now subst.
Qed.

Lemma status_tests (status : string) :
  status <> "play"%string -> status <> "pause"%string -> status <> "stop"%string ->
  String.eqb status "play" = false /\ String.eqb status "pause" = false /\
  String.eqb status "stop" = false.
Proof. intros H1 H2 H3. repeat split; now apply String.eqb_neq. Qed.

(** X12.  A status other than [play], [pause] and [stop] is ignored: the tick
    sends nothing to the controller and calls no renderer. *)
Theorem unknown_status_is_ignored (cfg : config) (st : volumio_state) (w : world) (status : string) :
  st_status st = Some status ->
  status <> "play"%string -> status <> "pause"%string -> status <> "stop"%string ->
  let w' := final (iteration wled_ok math_sin cfg (Some st) w) in
  posts (trace w') = posts (trace w) /\
  calls (trace w') = calls (trace w) /\
  previous_status w' = Some status.
Proof.
  intros Hs H1 H2 H3. destruct (status_tests status H1 H2 H3) as (E1 & E2 & E3).
  cbn zeta. cbv [iteration get_state bind ret read]. rewrite Hs. cbn [get].
  rewrite E1, E2, E3. exec.
  branches; cbn; traces; rewrite ?app_nil_r; auto using unchanged_status.
Qed.

(** X13.  When the player is stopped the tick clears the strip, whichever
    effects are enabled and whatever position and duration the answer
    carries; no renderer is called. *)
Theorem stopped_clears (cfg : config) (st : volumio_state) (w : world) :
  st_status st = Some "stop"%string ->
  let w' := final (iteration wled_ok math_sin cfg (Some st) w) in
  posts (trace w') =
    posts (trace w) ++ [SegmentPayload 0 0 (Some (led_count cfg)) (0, 0, 0)] /\
  calls (trace w') = calls (trace w) /\
  rotation_offset w' = rotation_offset w.
Proof.
  intros Hs. cbn zeta. cbv [iteration get_state bind ret read]. rewrite Hs.
  cbn [get String.eqb Ascii.eqb Bool.eqb]. exec.
  branches; cbn; traces; rewrite ?app_nil_r; auto.
Qed.

(** X14.  With the progress bar enabled and a positive duration, a playing or
    paused tick renders the progress bar, also when the rotation is enabled:
    the position is taken from [seek] in milliseconds, the one request is the
    progress frame, and the rotation offset does not move. *)
Theorem progress_bar_has_priority
    (cfg : config) (st : volumio_state) (w : world) (status : string) :
  st_status st = Some status ->
  status = "play"%string \/ status = "pause"%string ->
  progress_bar_enabled cfg = true ->
  (0 < get (st_duration st) 0)%Q ->
  let progress := (get (st_seek st) 0 / 1000)%Q in
  let duration := get (st_duration st) 0%Q in
  let w' := final (iteration wled_ok math_sin cfg (Some st) w) in
  calls (trace w') = calls (trace w) ++ [ProgressBarCall progress duration] /\
  posts (trace w') =
    posts (trace w) ++
    [PixelPayload
       (progress_led_data (led_count cfg)
          (leds_to_light (led_count cfg) progress duration)
          (progress_bar_color cfg))] /\
  rotation_offset w' = rotation_offset w.
Proof.
  intros Hs Hst Hen Hd. cbn zeta.
  assert (Hq : Qle_bool (get (st_duration st) 0%Q) 0 = false).
  { destruct (Qle_bool (get (st_duration st) 0%Q) 0) eqn:E; [|reflexivity].
    apply Qle_bool_iff in E. exfalso. exact (Qlt_not_le _ _ Hd E). }
  cbv [iteration get_state bind ret read]. rewrite Hs. cbn [get].
  destruct Hst as [-> | ->]; cbn [String.eqb Ascii.eqb Bool.eqb];
    unfold Qpositive; rewrite Hen, Hq; cbn [andb negb]; exec; rewrite Hq;
    branches; cbn; traces; rewrite ?app_nil_r; auto.
Qed.

(** ** Sequencing *)

Lemma bind_returned {A B : Type} (c : M A) (k : A -> M B) (w w1 : world) (a : A) :
  c w = Returned a w1 -> bind c k w = k a w1.
Proof. intros H. unfold bind. now rewrite H. Qed.

Lemma bind_raised {A B : Type} (c : M A) (k : A -> M B) (w w1 : world) (e : exn) :
  c w = Raised e w1 -> bind c k w = Raised e w1.
Proof. intros H. unfold bind. now rewrite H. Qed.

Lemma bind_assoc {A B C : Type} (c : M A) (k : A -> M B) (h : B -> M C) (w : world) :
  bind c (fun a => bind (k a) h) w = bind (bind c k) h w.
Proof. unfold bind. now destruct (c w). Qed.

Lemma post_run (p : payload) (error : string) (w : world) :
  exists ok : bool,
    post wled_ok p error w =
      Returned ok
        (World (rotation_offset w) (previous_status w) (trace w ++ posted p ok error)).
Proof.
  exec. match goal with |- context [wled_ok ?n] => exists (wled_ok n); destruct (wled_ok n) end;
    cbn; now rewrite <- ?app_assoc.
Qed.

Lemma startup_run (cfg : config) (w : world) :
  exists ok : bool,
    bind (log INFO "Starting VolumiWLED...")
         (fun _ => set_state wled_ok true (Some (brightness cfg))) w =
      Returned ok
        (World (rotation_offset w) (previous_status w)
           (trace w ++ Log INFO "Starting VolumiWLED..."
              :: posted (StatePayload true (Some (brightness cfg))) ok
                   "Error setting WLED state")).
Proof.
  exec. match goal with |- context [wled_ok ?n] => exists (wled_ok n); destruct (wled_ok n) end;
    cbn; now rewrite <- ?app_assoc.
Qed.

(** ** The renderers at the edges *)

(** X15.  Called with [is_playing] false, the rotation renderer only clears the
    strip: one segment request, no delay, the offset untouched, and no
    exception even on a strip of length zero. *)
Theorem rotation_not_playing_clears (cfg : config) (w : world) :
  exists ok : bool,
    apply_vinyl_rotation wled_ok math_sin cfg false w =
      Returned ok
        (World (rotation_offset w) (previous_status w)
           (trace w ++ Invoke (VinylRotationCall false)
              :: posted (SegmentPayload 0 0 (Some (led_count cfg)) (0, 0, 0)) ok
                   "Error setting WLED segment")).
Proof.
  unfold apply_vinyl_rotation. cbn [negb]. exec.
  match goal with |- context [wled_ok ?n] => exists (wled_ok n); destruct (wled_ok n) end;
    cbn; now rewrite <- !app_assoc.
Qed.

(** X16.  On a strip of length zero the rotation raises [ZeroDivisionError]
    before anything is sent; the exception leaves [run], so the strip that was
    switched on at start-up is neither cleared nor switched off. *)
Theorem empty_strip_rotation_raises
    (cfg : config) (response : option volumio_state)
    (rest : list (option volumio_state)) (w : world) :
  led_count cfg = 0 ->
  rotating cfg response ->
  vinyl_rotation_enabled cfg = true ->
  (exists w' : world,
     iteration wled_ok math_sin cfg response w = Raised ZeroDivisionError w' /\
     posts (trace w') = posts (trace w)) /\
  (exists w' : world,
     run wled_ok math_sin cfg (response :: rest) w = Raised ZeroDivisionError w' /\
     posts (trace w') = posts (trace w) ++ [StatePayload true (Some (brightness cfg))]).
Proof.
  intros Hn (st & -> & Hs & Hsel) Hrot. apply not_selectable in Hsel.
  assert (Hz : (led_count cfg =? 0) = true) by now apply Z.eqb_eq.
  assert (Htick : forall w0, exists w' : world,
             iteration wled_ok math_sin cfg (Some st) w0 = Raised ZeroDivisionError w' /\
             posts (trace w') = posts (trace w0)).
  { intros w0. cbv [iteration get_state bind ret read]. rewrite Hs.
    cbn [get String.eqb Ascii.eqb Bool.eqb]. rewrite Hsel, Hrot. exec. rewrite Hz.
    destruct (status_changed _ _); cbn; eexists; (split; [reflexivity|]);
      cbn; traces; now rewrite ?app_nil_r. }
  split; [apply Htick|].
  destruct (startup_run cfg w) as (ok & E0).
  destruct (Htick (World (rotation_offset w) (previous_status w)
                     (trace w ++ Log INFO "Starting VolumiWLED..."
                        :: posted (StatePayload true (Some (brightness cfg))) ok
                             "Error setting WLED state")))
    as (w' & E & P).
  exists w'. split.
  - unfold run. rewrite bind_assoc. rewrite (bind_returned _ _ _ _ _ E0).
    cbn [loop]. now rewrite (bind_raised _ _ _ _ _ (bind_raised _ _ _ _ _ E)).
  - rewrite P. cbn [trace]. unfold posted. destruct ok; traces; reflexivity.
Qed.

(** ** The whole of [run] *)

Lemma shutdown_run (cfg : config) (w : world) :
  exists w' : world,
    bind (log INFO "Shutting down VolumiWLED...")
         (fun _ => bind (clear_leds wled_ok (led_count cfg))
                     (fun _ => bind (set_state wled_ok false None) (fun _ => ret tt))) w =
      Returned tt w' /\
    posts (trace w') =
      posts (trace w) ++
      [SegmentPayload 0 0 (Some (led_count cfg)) (0, 0, 0); StatePayload false None] /\
    rotation_offset w' = rotation_offset w /\
    previous_status w' = previous_status w.
Proof.
  exec. oracle; cbn; eexists; (split; [reflexivity|]); cbn; traces; now repeat split.
Qed.

Lemma run_after_startup (cfg : config) (responses : list (option volumio_state)) (w : world) :
  exists ok : bool,
    run wled_ok math_sin cfg responses w =
      bind (loop wled_ok math_sin cfg responses)
           (fun _ => bind (log INFO "Shutting down VolumiWLED...")
              (fun _ => bind (clear_leds wled_ok (led_count cfg))
                 (fun _ => bind (set_state wled_ok false None) (fun _ => ret tt))))
        (World (rotation_offset w) (previous_status w)
           (trace w ++ Log INFO "Starting VolumiWLED..."
              :: posted (StatePayload true (Some (brightness cfg))) ok
                   "Error setting WLED state")).
Proof.
  destruct (startup_run cfg w) as (ok & E0). exists ok.
  unfold run. now rewrite bind_assoc, (bind_returned _ _ _ _ _ E0).
Qed.



(** X18.  A request to the controller that fails is absorbed: each method of
    the client sends exactly one request, returns whether it succeeded, logs
    one ERROR record when it did not, never raises and leaves the rotation
    offset and the previous status alone; [clear_leds] is the black segment
    over the whole strip. *)
Theorem wled_requests_absorb_failure
    (on : bool) (bri : option Z) (segment_id start : Z) (stop : option Z)
    (color : rgb) (count : Z) (led_data : list Z) (w : world) :
  let sent p ok error :=
    World (rotation_offset w) (previous_status w) (trace w ++ posted p ok error) in
  (exists ok, set_state wled_ok on bri w =
     Returned ok (sent (StatePayload on bri) ok "Error setting WLED state"%string)) /\
  (exists ok, set_segment wled_ok segment_id start stop color w =
     Returned ok (sent (SegmentPayload segment_id start stop color) ok
                    "Error setting WLED segment"%string)) /\
  (exists ok, clear_leds wled_ok count w =
     Returned ok (sent (SegmentPayload 0 0 (Some count) (0, 0, 0)) ok
                    "Error setting WLED segment"%string)) /\
  (exists ok, set_individual_leds wled_ok led_data w =
     Returned ok (sent (PixelPayload led_data) ok
                    "Error setting individual LEDs"%string)).
Proof.
  cbn zeta. repeat split; apply post_run.
Qed.

(** X19.  On a strip of length zero or less the progress bar still sends its
    request, with an empty array: no LED is addressed. *)
Theorem progress_bar_on_empty_strip
    (cfg : config) (progress duration : Q) (w : world) :
  led_count cfg <= 0 -> (0 < duration)%Q ->
  exists (ok : bool) (w' : world),
    apply_progress_bar wled_ok cfg progress duration w = Returned ok w' /\
    posts (trace w') = posts (trace w) ++ [PixelPayload []].
Proof.
  intros Hn Hd.
  destruct (progress_bar_run wled_ok cfg progress duration w Hd) as [ok Hrun].
  exists ok. eexists. split; [exact Hrun|]. cbn [trace].
  assert (E : forall lit color, progress_led_data (led_count cfg) lit color = []).
  { intros lit color. unfold progress_led_data, py_range.
    replace (Z.to_nat (led_count cfg)) with 0%nat by lia. reflexivity. }
  rewrite E. unfold posted. destruct ok; traces; reflexivity.
Qed.

(** ** Failing requests *)

Lemma tick_same_requests
    (ok1 ok2 : nat -> bool) (cfg : config) (response : option volumio_state)
    (w1 w2 : world) :
  rotation_offset w1 = rotation_offset w2 ->
  previous_status w1 = previous_status w2 ->
  same_requests (iteration ok1 math_sin cfg response w1)
                (iteration ok2 math_sin cfg response w2) w1 w2.
Proof.
  destruct w1 as [o1 p1 t1], w2 as [o2 p2 t2]. cbn. intros -> ->.
  unfold same_requests.
  destruct response as [st|]; exec; unfold Qpositive; branches; cbn;
    traces; rewrite ?app_nil_r;
    (split; [first [ exists []; rewrite !app_nil_r; split; reflexivity
                   | eexists; split; reflexivity ]
            | repeat split; reflexivity ]).
Qed.

Lemma loop_same_requests
    (ok1 ok2 : nat -> bool) (cfg : config) (responses : list (option volumio_state))
    (w1 w2 : world) :
  rotation_offset w1 = rotation_offset w2 ->
  previous_status w1 = previous_status w2 ->
  same_requests (loop ok1 math_sin cfg responses w1)
                (loop ok2 math_sin cfg responses w2) w1 w2.
Proof.
  revert w1 w2. induction responses as [|r rest IH]; intros w1 w2 Ho Hp.
  - cbn. unfold same_requests. cbn. split; [|now repeat split].
    exists []. now rewrite !app_nil_r.
  - pose proof (tick_same_requests ok1 ok2 cfg r w1 w2 Ho Hp) as H.
    cbn [loop]. unfold bind.
    destruct (iteration ok1 math_sin cfg r w1) as [[] v1|e1 v1],
             (iteration ok2 math_sin cfg r w2) as [[] v2|e2 v2];
      destruct H as ((n1 & A1 & A2) & Ho' & Hp' & Hk); cbn in *; try contradiction.
    + destruct (IH v1 v2 Ho' Hp') as ((n2 & B1 & B2) & Ho'' & Hp'' & Hk').
      split; [|now repeat split].
      exists (n1 ++ n2). now rewrite B1, B2, A1, A2, !app_assoc.
    + split; [|now repeat split]. exists n1. now split.
Qed.

Lemma scaled_bound (c : Z) (intensity : Q) :
  0 <= c -> (0 <= intensity <= 1)%Q -> 0 <= py_int (inject_Z c * intensity) <= c.
Proof.
  intros Hc [H0 H1].
  assert (Hn : (0 <= inject_Z c * intensity)%Q).
  { apply Qmult_le_0_compat; [now apply inject_Z_nonneg | exact H0]. }
  rewrite py_int_floor by exact Hn. split.
  - now apply floor_ge.
  - rewrite <- (Qfloor_Z c) at 2. apply Qfloor_resp_le.
    rewrite <- (Qmult_1_r (inject_Z c)) at 2.
    rewrite !(Qmult_comm (inject_Z c)).
    apply Qmult_le_compat_r; [exact H1 | now apply inject_Z_nonneg].
Qed.

(** X21.  The rotation only dims: every channel it sends lies between 0 and
    the configured value of that channel, so a channel configured as 0 stays
    dark on every LED and at every offset. *)
Theorem rotation_only_dims (count offset i c0 c1 c2 : Z) :
  (forall x : Q, (-1 <= math_sin x <= 1)%Q) ->
  0 <= c0 -> 0 <= c1 -> 0 <= c2 ->
  exists r g b : Z,
    vinyl_pixel math_sin count offset (c0, c1, c2) i = [i; r; g; b] /\
    0 <= r <= c0 /\ 0 <= g <= c1 /\ 0 <= b <= c2.
Proof.
  intros Hsin H0 H1 H2.
  pose proof (vinyl_intensity_range math_sin count offset i Hsin) as HI.
  unfold vinyl_pixel. eexists _, _, _. split; [reflexivity|].
  repeat split; now apply scaled_bound.
Qed.

End Coverage.

Section Failures.

Variable math_sin : Q -> Q.

(** X20.  Which requests [run] sends does not depend on whether earlier
    requests succeeded: against any two controllers, on the same answers of
    the player, it sends the same requests in the same order, ends the same
    way and leaves the same rotation offset and previous status.  There is no
    retry and no back-off. *)
Theorem requests_independent_of_failures
    (ok1 ok2 : nat -> bool) (cfg : config)
    (responses : list (option volumio_state)) (w : world) :
  let r1 := run ok1 math_sin cfg responses w in
  let r2 := run ok2 math_sin cfg responses w in
  posts (trace (final r1)) = posts (trace (final r2)) /\
  rotation_offset (final r1) = rotation_offset (final r2) /\
  previous_status (final r1) = previous_status (final r2) /\
  match r1, r2 with
  | Returned _ _, Returned _ _ => True
  | Raised e1 _, Raised e2 _ => e1 = e2
  | _, _ => False
  end.
Proof.
  cbn zeta.
  destruct (run_after_startup ok1 math_sin cfg responses w) as (b1 & E1),
           (run_after_startup ok2 math_sin cfg responses w) as (b2 & E2).
  rewrite E1, E2.
  match type of E1 with _ = bind _ _ ?v1 =>
  match type of E2 with _ = bind _ _ ?v2 =>
    pose proof (loop_same_requests math_sin ok1 ok2 cfg responses v1 v2 eq_refl eq_refl) as H;
    destruct (loop ok1 math_sin cfg responses v1) as [[] u1|e1 u1] eqn:L1;
    destruct (loop ok2 math_sin cfg responses v2) as [[] u2|e2 u2] eqn:L2
  end end;
    destruct H as ((n & A1 & A2) & Ho & Hp & Hk); cbn in Ho, Hp, Hk, A1, A2;
    try contradiction.
  - rewrite (bind_returned _ _ _ _ _ L1), (bind_returned _ _ _ _ _ L2).
    destruct (shutdown_run ok1 cfg u1) as (x1 & S1 & P1 & O1 & Q1),
             (shutdown_run ok2 cfg u2) as (x2 & S2 & P2 & O2 & Q2).
    rewrite S1, S2. cbn [final]. rewrite P1, P2, A1, A2, O1, O2, Q1, Q2.
    repeat split; try assumption.
    unfold posted. destruct b1, b2; traces; reflexivity.
  - rewrite (bind_raised _ _ _ _ _ L1), (bind_raised _ _ _ _ _ L2).
    cbn [final]. rewrite A1, A2. repeat split; try assumption.
    unfold posted. destruct b1, b2; traces; reflexivity.
Qed.

End Failures.

(** ** The further properties at sample inputs *)

Lemma leds_to_light_bounds_witness : 0 <= leds_to_light 10 50 200 <= 10.
Proof.
  apply (leds_to_light_bounds 10 50 200).
  - lia.
  - unfold Qle; simpl; lia.
  - unfold Qlt; simpl; lia.
Defined.

Lemma progress_bar_full_witness :
  leds_to_light 10 250 200 = 10 /\
  frame_of (progress_led_data 10 (leds_to_light 10 250 200) (10, 20, 30)) =
    Some (map (fun i => (i, (10, 20, 30))) (py_range 10)).
Proof.
  apply (progress_bar_full 10 250 200 (10, 20, 30)).
  - lia.
  - unfold Qlt; simpl; lia.
  - unfold Qle; simpl; lia.
Defined.

Lemma progress_bar_empty_witness :
  leds_to_light 10 (-5) 200 <= 0 /\
  frame_of (progress_led_data 10 (leds_to_light 10 (-5) 200) (10, 20, 30)) =
    Some (map (fun i => (i, (0, 0, 0))) (py_range 10)).
Proof.
  apply (progress_bar_empty 10 (-5) 200 (10, 20, 30)).
  - lia.
  - unfold Qlt; simpl; lia.
  - unfold Qle; simpl; lia.
Defined.

Lemma rotation_offset_stays_in_range_witness :
  0 <= rotation_offset
         (final (loop wled_down sin_cut vinyl_config
                   [Some playing_state; None; Some stopped_state] initial_world))
    < led_count vinyl_config.
Proof.
  apply (rotation_offset_stays_in_range wled_down sin_cut vinyl_config
           [Some playing_state; None; Some stopped_state] initial_world).
  simpl; lia.
Defined.

Lemma playing_rotates : rotating vinyl_config (Some playing_state).
Proof. exists playing_state. repeat split. left. reflexivity. Qed.

Lemma rotation_offset_after_ticks_witness :
  let responses := [Some playing_state; Some playing_state;
                    Some playing_state; Some playing_state] in
  exists w' : world,
    loop wled_up sin_cut vinyl_config responses initial_world = Returned tt w' /\
    rotation_offset w' =
      (rotation_offset initial_world + Z.of_nat (List.length responses))
        mod led_count vinyl_config /\
    List.length (posts (trace w')) =
      (List.length (posts (trace initial_world)) + List.length responses)%nat /\
    (Z.of_nat (List.length responses) = led_count vinyl_config ->
     rotation_offset w' = rotation_offset initial_world).
Proof.
  apply (rotation_offset_after_ticks wled_up sin_cut vinyl_config
           [Some playing_state; Some playing_state;
            Some playing_state; Some playing_state] initial_world).
  - repeat constructor; exact playing_rotates.
  - reflexivity.
  - unfold Qle; simpl; lia.
  - unfold Qle; simpl; lia.
  - simpl; lia.
Defined.

Lemma offset_moves_only_when_playing_witness :
  rotation_offset
    (final (iteration wled_up sin_cut vinyl_config (Some paused_state)
              (World 3 None []))) =
  rotation_offset (World 3 None []).
Proof.
  apply (offset_moves_only_when_playing wled_up sin_cut vinyl_config
           (Some paused_state) (World 3 None [])).
  intros st H. injection H as <-. simpl. discriminate.
Defined.

Lemma unknown_status_is_ignored_witness :
  let w' := final (iteration wled_up sin_cut demo_config (Some buffering_state)
                     initial_world) in
  posts (trace w') = posts (trace initial_world) /\
  calls (trace w') = calls (trace initial_world) /\
  previous_status w' = Some "buffering"%string.
Proof.
  apply (unknown_status_is_ignored wled_up sin_cut demo_config buffering_state
           initial_world "buffering"%string).
  - reflexivity.
  - discriminate.
  - discriminate.
  - discriminate.
Defined.

Lemma stopped_clears_witness :
  let w' := final (iteration wled_up sin_cut demo_config (Some stopped_state)
                     initial_world) in
  posts (trace w') =
    posts (trace initial_world) ++
    [SegmentPayload 0 0 (Some (led_count demo_config)) (0, 0, 0)] /\
  calls (trace w') = calls (trace initial_world) /\
  rotation_offset w' = rotation_offset initial_world.
Proof.
  apply (stopped_clears wled_up sin_cut demo_config stopped_state initial_world).
  reflexivity.
Defined.

Lemma progress_bar_has_priority_witness :
  let progress := (get (st_seek paused_state) 0 / 1000)%Q in
  let duration := get (st_duration paused_state) 0%Q in
  let w' := final (iteration wled_up sin_cut demo_config (Some paused_state)
                     initial_world) in
  calls (trace w') = calls (trace initial_world) ++ [ProgressBarCall progress duration] /\
  posts (trace w') =
    posts (trace initial_world) ++
    [PixelPayload
       (progress_led_data (led_count demo_config)
          (leds_to_light (led_count demo_config) progress duration)
          (progress_bar_color demo_config))] /\
  rotation_offset w' = rotation_offset initial_world.
Proof.
  apply (progress_bar_has_priority wled_up sin_cut demo_config paused_state
           initial_world "pause"%string).
  - reflexivity.
  - right; reflexivity.
  - reflexivity.
  - unfold Qlt; simpl; lia.
Defined.

Lemma empty_rotates : rotating empty_config (Some playing_state).
Proof. exists playing_state. repeat split. left. reflexivity. Qed.

Lemma empty_strip_rotation_raises_witness :
  (exists w' : world,
     iteration wled_up sin_cut empty_config (Some playing_state) initial_world =
       Raised ZeroDivisionError w' /\
     posts (trace w') = posts (trace initial_world)) /\
  (exists w' : world,
     run wled_up sin_cut empty_config [Some playing_state; Some stopped_state]
       initial_world = Raised ZeroDivisionError w' /\
     posts (trace w') =
       posts (trace initial_world) ++
       [StatePayload true (Some (brightness empty_config))]).
Proof.
  apply (empty_strip_rotation_raises wled_up sin_cut empty_config
           (Some playing_state) [Some stopped_state] initial_world).
  - reflexivity.
  - exact empty_rotates.
  - reflexivity.
Defined.

Lemma progress_bar_on_empty_strip_witness :
  exists (ok : bool) (w' : world),
    apply_progress_bar wled_up empty_config 50 200 initial_world = Returned ok w' /\
    posts (trace w') = posts (trace initial_world) ++ [PixelPayload []].
Proof.
  apply (progress_bar_on_empty_strip wled_up empty_config 50 200 initial_world).
  - simpl; lia.
  - unfold Qlt; simpl; lia.
Defined.

Lemma rotation_only_dims_witness :
  exists r g b : Z,
    vinyl_pixel sin_cut 10 3 (255, 0, 40) 7 = [7; r; g; b] /\
    0 <= r <= 255 /\ 0 <= g <= 0 /\ 0 <= b <= 40.
Proof.
  apply (rotation_only_dims sin_cut 10 3 7 255 0 40).
  - exact sin_cut_range.
  - lia.
  - lia.
  - lia.
Defined.
